(** * novel2audiobook: the merge-then-filter curation of [acgnai-remove-unneed.py]

    A shallow embedding of [strict_filter_json] (the part between the JSON
    load and the JSON dump) and the properties of its two stages.

    - A Python [str] is the list of its Unicode code points.
    - A Python [dict] is an association list with pairwise distinct keys, in
      insertion order (the order matters: [sorted] is stable, and the first
      key seen for a canonical identity is the one that is stored).
    - [temp_map], which the source only looks up and inserts into, is a
      [gmap].
    - Exceptions are explicit: a stage returns [Ok] or [Raise].  *)

From Stdlib Require Import ZArith NArith Lia.
From stdpp Require Import base option list gmap.

#[local] Set Warnings "-clear-no-such-hyp".

(** ** Python strings *)

Abbreviation pystr := (list N).

Module PyStr.

(** [s.startswith(pat)] *)
Fixpoint startswith (s pat : pystr) {struct pat} : bool :=
  match pat, s with
  | [], _ => true
  | p :: pat', c :: s' => (c =? p)%N && startswith s' pat'
  | _ :: _, [] => false
  end.

(** [s.endswith(suf)] *)
Definition endswith (s suf : pystr) : bool :=
  startswith (rev s) (rev suf).

(** [sub in s] on strings: [sub] occurs somewhere inside [s]. *)
Fixpoint contains (s sub : pystr) : bool :=
  startswith s sub ||
  match s with
  | [] => false
  | _ :: s' => contains s' sub
  end.

(** [s.replace(old, '')]: the occurrences of [old] are found from left to
    right, without overlap, and deleted; the result is not scanned again.
    [skip] counts the characters of the current occurrence still to drop. *)
Fixpoint delete_from (old : pystr) (skip : nat) (s : pystr) : pystr :=
  match s with
  | [] => []
  | c :: s' =>
      match skip with
      | S n => delete_from old n s'
      | O =>
          if startswith s old
          then delete_from old (length old - 1) s'
          else c :: delete_from old 0 s'
      end
  end.

Definition replace_empty (s old : pystr) : pystr :=
  match old with
  | [] => s
  | _ :: _ => delete_from old 0 s
  end.

(** [s.split(sep)] for a separator of one character. *)
Fixpoint split (s : pystr) (sep : N) : list pystr :=
  match s with
  | [] => [[]]
  | c :: s' =>
      if (c =? sep)%N then [] :: split s' sep
      else match split s' sep with
           | seg :: segs => (c :: seg) :: segs
           | [] => [[c]]
           end
  end.

(** [segs[-1]]; [split] never returns the empty list ([split_nonempty]). *)
Definition last_item (segs : list pystr) : pystr := List.last segs [].

(** [a == b] on strings. *)
Definition eqb (a b : pystr) : bool := bool_decide (a = b).

(** [s.replace(old, new)] for an [old] of one character: every occurrence
    is replaced. *)
Fixpoint replace_char (s : pystr) (old : N) (new : pystr) : pystr :=
  match s with
  | [] => []
  | c :: s' =>
      (if (c =? old)%N then new else [c]) ++ replace_char s' old new
  end.

End PyStr.

(** ** JSON values, records and ordered dictionaries *)

(** What [json.load] builds.  A number [JNum m e] stands for [m * 10^e]; the
    program never looks inside a number.  An object is the list of its
    items, of distinct keys, in insertion order. *)
#[local] Set Warnings "-register-all".
Inductive json : Type :=
  | JNull
  | JBool (b : bool)
  | JNum (m e : Z)
  | JStr (s : pystr)
  | JArr (xs : list json)
  | JObj (kvs : list (pystr * json)).
#[local] Set Warnings "register-all".

(** A record of the dataset: a JSON object.  The two fields the program
    reads are kept apart from the others, each absent ([None]) or present.
    [tags], when present, is an array of strings (section 3 of the
    specification); [emotion] may have any JSON shape.  An input outside
    this shape (a value that is not an object, [tags] that is [null] or
    not an array of strings), on which the program raises at line 65, 82,
    96 or 98, has no value of this type: what follows is about the inputs
    of this shape. *)
Record record : Type := mkRecord {
  r_tags : option (list pystr);
  r_emotion : option json;
  r_others : list (pystr * json)
}.

(** [value.get('tags', [])] *)
Definition get_tags (value : record) : list pystr :=
  default [] (r_tags value).

(** [value['tags'] = new_tags] *)
Definition set_tags (value : record) (new_tags : list pystr) : record :=
  {| r_tags := Some new_tags;
     r_emotion := r_emotion value;
     r_others := r_others value |}.

(** Equality of every field other than [tags]. *)
Definition same_but_tags (a b : record) : Prop :=
  r_emotion a = r_emotion b ∧ r_others a = r_others b.

Inductive py_error : Type := TypeError | KeyError.

Inductive result (A : Type) : Type :=
  | Ok (a : A)
  | Raise (e : py_error).
Arguments Ok {A} a.
Arguments Raise {A} e.

#[global] Instance result_ret : MRet result := λ A a, Ok a.
#[global] Instance result_bind : MBind result := λ A B f r,
  match r with
  | Ok a => f a
  | Raise e => Raise e
  end.

Abbreviation dict V := (list (pystr * V)).

Section Dict.
Context {V : Type}.

(** [d.keys()] *)
Definition dict_keys (d : dict V) : list pystr := d.*1.

(** [d.get(k)] *)
Fixpoint dict_get (d : dict V) (k : pystr) : option V :=
  match d with
  | [] => None
  | (k', v) :: d' => if decide (k' = k) then Some v else dict_get d' k
  end.

(** [d[k]] *)
Definition dict_item (d : dict V) (k : pystr) : result V :=
  match dict_get d k with
  | Some v => Ok v
  | None => Raise KeyError
  end.

(** [d[k] = v]: a present key keeps its place, a new key goes last. *)
Fixpoint dict_set (d : dict V) (k : pystr) (v : V) : dict V :=
  match d with
  | [] => [(k, v)]
  | (k', v') :: d' =>
      if decide (k' = k) then (k', v) :: d' else (k', v') :: dict_set d' k v
  end.
End Dict.

(** [sorted(l, key=prio)]: Python's sort is stable, so an element is placed
    before the elements of the same priority that came after it. *)
Section Sorted.
Context {A : Type} (prio : A → nat).

Fixpoint insert_by (x : A) (l : list A) : list A :=
  match l with
  | [] => [x]
  | y :: l' => if prio x <=? prio y then x :: l else y :: insert_by x l'
  end.

Fixpoint sorted_by (l : list A) : list A :=
  match l with
  | [] => []
  | x :: l' => insert_by x (sorted_by l')
  end.
End Sorted.

(** ** The constants of [strict_filter_json] *)

Definition MIN_EMOTION_COUNT : nat := 6.

(** The code points of
    ["普通", "平民", "龙套", "龍套", "路人", "村民",
     "士兵", "卫兵", "守卫", "男", "女",
     "怪物", "生物", "纯水精灵", "元素生命", "丘丘人"] *)
Definition BANNED_TAGS : list pystr :=
  [ [26222; 36890]; [24179; 27665]; [40857; 22871]; [40845; 22871];
    [36335; 20154]; [26449; 27665];
    [22763; 20853]; [21355; 20853]; [23432; 21355]; [30007]; [22899];
    [24618; 29289]; [29983; 29289]; [32431; 27700; 31934; 28789];
    [20803; 32032; 29983; 21629]; [19992; 19992; 20154] ]%N.

(** ["NPC", "系统", "旁白", "未知", "大叔", "小孩", "少女"] *)
Definition BANNED_NAMES : list pystr :=
  [ [78; 80; 67]; [31995; 32479]; [26049; 30333]; [26410; 30693];
    [22823; 21460]; [23567; 23401]; [23569; 22899] ]%N.

(** ["_en", "_ja", "english", "japanese", "英语", "日语"] *)
Definition LANGUAGE_MARKERS : list pystr :=
  [ [95; 101; 110]; [95; 106; 97];
    [101; 110; 103; 108; 105; 115; 104];
    [106; 97; 112; 97; 110; 101; 115; 101];
    [33521; 35821]; [26085; 35821] ]%N.

(** ["_ZH"] *)
Definition ZH : pystr := [95; 90; 72]%N.

(** ['-'] *)
Definition HYPHEN : N := 45%N.

(** ** Stage one: merging the [_ZH] and non-[_ZH] keys *)

(** The sort key of line 44: [1 if k.endswith('_ZH') else 2]. *)
Definition priority (k : pystr) : nat :=
  if PyStr.endswith k ZH then 1 else 2.

(** [sorted(data.keys(), key=...)] *)
Definition sorted_keys (data : dict record) : list pystr :=
  sorted_by priority (dict_keys data).

(** [key.replace('_ZH', '')]: the canonical identity of a key. *)
Definition base_name (key : pystr) : pystr :=
  PyStr.replace_empty key ZH.

Section Pipeline.
(** [str.lower] is the interpreter's Unicode case mapping; the program is
    verified for every such function. *)
Variable lower : pystr → pystr.

(** [list(set(a) | set(b))]: the order in which a Python set is listed is
    the interpreter's; [set_union_list_spec] below is all that is known
    about the resulting list. *)
Variable set_union_list : list pystr → list pystr → list pystr.

(** The language filter of lines 52-54. *)
Definition is_excluded (key : pystr) : bool :=
  let key_lower := lower key in
  existsb (λ x, PyStr.contains key_lower x) LANGUAGE_MARKERS.

(** The body of the loop of lines 48-70, on the state
    [(temp_map, merged_data)].  The record [merged_data[existing_key]] is
    updated in place; it is the object [data[existing_key]], which the loop
    has already read and does not read again, and [json.load] shares no
    object between two keys. *)
Definition merge_step (data : dict record)
    (st : gmap pystr pystr * dict record) (key : pystr)
    : result (gmap pystr pystr * dict record) :=
  let '(temp_map, merged_data) := st in
  value ← dict_item data key;
  if is_excluded key then Ok st
  else
    let base_name := base_name key in
    match temp_map !! base_name with
    | Some existing_key =>
        existing_data ← dict_item merged_data existing_key;
        let new_tags :=
          set_union_list (get_tags existing_data) (get_tags value) in
        Ok (temp_map,
            dict_set merged_data existing_key
              (set_tags existing_data new_tags))
    | None =>
        Ok (<[base_name := key]> temp_map, dict_set merged_data key value)
    end.

Fixpoint merge_loop (data : dict record) (keys : list pystr)
    (st : gmap pystr pystr * dict record)
    : result (gmap pystr pystr * dict record) :=
  match keys with
  | [] => Ok st
  | key :: keys' => st' ← merge_step data st key; merge_loop data keys' st'
  end.

(** Lines 39-70: [merged_data] after the loop. *)
Definition merge_stage (data : dict record) : result (dict record) :=
  st ← merge_loop data (sorted_keys data) (∅, []); Ok st.2.
End Pipeline.

(** ** Stage two: the filter *)

(** [len(x)]: defined on lists, strings and dicts; [TypeError] on [None],
    booleans and numbers. *)
Definition py_len (x : json) : result nat :=
  match x with
  | JArr xs => Ok (length xs)
  | JStr s => Ok (length s)
  | JObj kvs => Ok (length kvs)
  | JNull | JBool _ | JNum _ _ => Raise TypeError
  end.

(** Lines 82-88: the value of [emotions] when its length is taken. *)
Definition emotions_of (value : record) : json :=
  let emotions := default (JArr []) (r_emotion value) in
  match emotions with
  | JArr _ => emotions
  | JObj kvs =>
      match kvs with
      | (_, first) :: _ => first
      | [] => JArr []
      end
  | _ => emotions
  end.

(** Lines 96-102, inner loop: [banned in tag] for some entry of the list. *)
Fixpoint tag_hits (tag : pystr) (banned_tags : list pystr) : bool :=
  match banned_tags with
  | [] => false
  | banned :: rest =>
      if PyStr.contains tag banned then true else tag_hits tag rest
  end.

(** Lines 94-102: the value of [is_banned_tag] after the loops. *)
Fixpoint is_banned_tag (current_tags : list pystr) : bool :=
  match current_tags with
  | [] => false
  | tag :: rest =>
      if tag_hits tag BANNED_TAGS then true else is_banned_tag rest
  end.

(** Line 112: [key.split('-')[-1].replace('_ZH', '')] *)
Definition name_part (key : pystr) : pystr :=
  PyStr.replace_empty (PyStr.last_item (PyStr.split key HYPHEN)) ZH.

Fixpoint name_hits (key : pystr) (banned_names : list pystr) : bool :=
  match banned_names with
  | [] => false
  | bad_name :: rest =>
      if PyStr.eqb bad_name (name_part key) then true else name_hits key rest
  end.

(** Lines 108-116: the value of [is_banned_name] after the loop. *)
Definition is_banned_name (key : pystr) : bool :=
  name_hits key BANNED_NAMES.

(** Lines 82-119: does the loop body reach line 121? *)
Definition passes (key : pystr) (value : record) : result bool :=
  n ← py_len (emotions_of value);
  if n <? MIN_EMOTION_COUNT then Ok false
  else if is_banned_tag (get_tags value) then Ok false
  else if is_banned_name key then Ok false
  else Ok true.

Definition filter_step (final_data : dict record) (item : pystr * record)
    : result (dict record) :=
  let '(key, value) := item in
  keep ← passes key value;
  if keep : bool then Ok (dict_set final_data key value) else Ok final_data.

Fixpoint filter_loop (items : dict record) (final_data : dict record)
    : result (dict record) :=
  match items with
  | [] => Ok final_data
  | item :: items' =>
      final_data' ← filter_step final_data item;
      filter_loop items' final_data'
  end.

(** Lines 77-121: [final_data] after the loop. *)
Definition filter_stage (merged_data : dict record) : result (dict record) :=
  filter_loop merged_data [].

(** Lines 39-121: from the loaded [data] to the [final_data] that is dumped. *)
Definition strict_filter_json (lower : pystr → pystr)
    (set_union_list : list pystr → list pystr → list pystr)
    (data : dict record) : result (dict record) :=
  merged_data ← merge_stage lower set_union_list data;
  filter_stage merged_data.

(** ** Two instances of the interpreter's functions, to run the model *)

(** [str.lower] on the strings whose cased characters are all ASCII. *)
Definition ascii_lower (s : pystr) : pystr :=
  (λ c, if (65 <=? c)%N && (c <=? 90)%N then (c + 32)%N else c) <$> s.

(** One of the orders in which [list(set(a) | set(b))] may come. *)
Definition union_in_order (a b : list pystr) : list pystr :=
  remove_dups (a ++ b).

(** ** Predicates used in the statements *)

Definition marked (k : pystr) : Prop := PyStr.endswith k ZH = true.

#[global] Instance marked_dec k : Decision (marked k) :=
  decide (PyStr.endswith k ZH = true).

Section Invariants.
Variable lower : pystr → pystr.

(** A key passes the language filter of lines 52-54. *)
Definition survives (key : pystr) : Prop := is_excluded lower key = false.

(** What holds of [temp_map] and [merged_data] once the keys [seen] have
    gone through the loop body. *)
Record merge_inv (data : dict record) (seen : gset pystr)
    (temp_map : gmap pystr pystr) (merged_data : dict record) : Prop := {
  inv_chosen : ∀ b k,
    temp_map !! b = Some k → base_name k = b ∧ k ∈ dict_keys merged_data;
  inv_stored : ∀ k,
    k ∈ dict_keys merged_data → temp_map !! base_name k = Some k;
  inv_seen : ∀ b,
    is_Some (temp_map !! b) ↔ ∃ k, k ∈ seen ∧ survives k ∧ base_name k = b;
  inv_nodup : NoDup (dict_keys merged_data);
  inv_data : ∀ k r,
    dict_get merged_data k = Some r →
    k ∈ seen ∧ survives k ∧
    ∃ r0, dict_get data k = Some r0 ∧ same_but_tags r r0
}.

(** The tags of a stored record are those of the surviving keys seen so far
    that have its canonical identity. *)
Definition tags_inv (data : dict record) (seen : gset pystr)
    (merged_data : dict record) : Prop :=
  ∀ k r,
    dict_get merged_data k = Some r →
    ∀ t,
      t ∈ get_tags r ↔
      ∃ k' r',
        k' ∈ seen ∧ survives k' ∧ base_name k' = base_name k ∧
        dict_get data k' = Some r' ∧ t ∈ get_tags r'.
End Invariants.

#[global] Instance py_error_eq_dec : EqDecision py_error.
Proof. solve_decision. Defined.

#[global] Instance result_eq_dec {A} `{EqDecision A} : EqDecision (result A).
Proof. solve_decision. Defined.

(** The loop body reaches line 121 for this item. *)
Definition retained (item : pystr * record) : Prop :=
  passes item.1 item.2 = Ok true.

#[global] Instance retained_dec item : Decision (retained item) :=
  decide (passes item.1 item.2 = Ok true).

(** Taking the length of [emotions] raises nothing for this item. *)
Definition measurable (item : pystr * record) : Prop :=
  ∃ n, py_len (emotions_of item.2) = Ok n.

(** The items of a dictionary as the sort of line 44 orders them. *)
Definition in_sorted_order (d : dict record) : dict record :=
  filter (λ kv, marked kv.1) d ++ filter (λ kv, ¬ marked kv.1) d.

(** Lines 13 and 126: [original_count - len(final_data)], on Python's
    integers. *)
Definition removed_count (data final_data : dict record) : Z :=
  Z.of_nat (length data) - Z.of_nat (length final_data).

#[global] Instance survives_dec lower key : Decision (survives lower key) :=
  decide (is_excluded lower key = false).

#[global] Instance measurable_dec item : Decision (measurable item).
Proof.
  unfold measurable. destruct (py_len (emotions_of item.2)) as [n|e].
  - left. by exists n.
  - right. by intros [n Hn].
Defined.

(** Two records that differ at most in the order and the repetitions of
    their tags. *)
Definition same_up_to_tag_order (a b : record) : Prop :=
  same_but_tags a b ∧ ∀ t, t ∈ get_tags a ↔ t ∈ get_tags b.

(** Two dictionaries with the same keys in the same order and records that
    differ at most in the order of their tags. *)
Definition dicts_agree (d1 d2 : dict record) : Prop :=
  Forall2 (λ x y, x.1 = y.1 ∧ same_up_to_tag_order x.2 y.2) d1 d2.

(** A stored record whose canonical identity no other surviving key seen so
    far has is the input's record of its key. *)
Definition verbatim_inv (lower : pystr → pystr) (data : dict record)
    (seen : gset pystr) (merged_data : dict record) : Prop :=
  ∀ k r,
    dict_get merged_data k = Some r →
    (∀ k', k' ∈ seen → survives lower k' →
           base_name k' = base_name k → k' = k) →
    dict_get data k = Some r.

(** Another of the orders in which [list(set(a) | set(b))] may come. *)
Definition union_other_order (a b : list pystr) : list pystr :=
  reverse (remove_dups (b ++ a)).

(** * The naming of the voice prompts in [sovits2qwen3.py]

    The part of the loop body of [main] that computes, from the name of a
    [.wav] file and the name of its folder, the name of the [.pt] file
    (lines 57-67, 78-89 and 114); the calls of the file system and of the
    remote service are not modelled. *)

(** ['【'], ['】'], the newline, ['_'], [".wav"], [".pt"], ["zh-"],
    ["中文"], ["unknown"] *)
Definition LEFT_BRACKET : N := 12304%N.
Definition RIGHT_BRACKET : N := 12305%N.
Definition NEWLINE : N := 10%N.
Definition UNDERSCORE : N := 95%N.
Definition DOT_WAV : pystr := [46; 119; 97; 118]%N.
Definition DOT_PT : pystr := [46; 112; 116]%N.
Definition ZH_DASH : pystr := [122; 104; 45]%N.
Definition CHINESE : pystr := [20013; 25991]%N.
Definition UNKNOWN : pystr := [117; 110; 107; 110; 111; 119; 110]%N.

(** Lines 18-27:
    [{"中立": "neutral", "开心": "happy", "生气": "angry", "难过": "sad",
      "吃惊": "surprise", "恐惧": "fear", "厌恶": "disgust",
      "其他": "other"}] *)
Definition EMOTION_MAP : dict pystr :=
  [ ([20013; 31435], [110; 101; 117; 116; 114; 97; 108]);
    ([24320; 24515], [104; 97; 112; 112; 121]);
    ([29983; 27668], [97; 110; 103; 114; 121]);
    ([38590; 36807], [115; 97; 100]);
    ([21507; 24778], [115; 117; 114; 112; 114; 105; 115; 101]);
    ([24656; 24807], [102; 101; 97; 114]);
    ([21388; 24694], [100; 105; 115; 103; 117; 115; 116]);
    ([20854; 20182], [111; 116; 104; 101; 114]) ]%N.

(** Line 67: [EMOTION_MAP.get(emotion_zh, "unknown")] *)
Definition emotion_en (emotion_zh : pystr) : pystr :=
  default UNKNOWN (dict_get EMOTION_MAP emotion_zh).

(** Line 57: [re.match] with the pattern made of ['^'], ['【'], a lazy
    group of any characters, ['】'], a greedy group of any characters, a dot,
    ['wav'] and ['$'], as the search of the matcher goes.  "Any character"
    is any but the newline; ['$'] is the end of the string or the place
    before a newline that ends it. *)

(** ['$'] *)
Definition at_end (s : pystr) : bool :=
  match s with
  | [] => true
  | c :: rest => (c =? NEWLINE)%N && bool_decide (rest = [])
  end.

(** A dot, ['wav'] and ['$']. *)
Definition wav_at_end (s : pystr) : bool :=
  match s with
  | c1 :: c2 :: c3 :: c4 :: rest =>
      bool_decide ([c1; c2; c3; c4] = DOT_WAV) && at_end rest
  | _ => false
  end.

(** The greedy group and what follows it: a longer group is tried before a
    shorter one. *)
Fixpoint greedy_text (s : pystr) : option pystr :=
  match s with
  | [] => None
  | c :: s' =>
      match (if (c =? NEWLINE)%N then None else greedy_text s') with
      | Some text => Some (c :: text)
      | None => if wav_at_end s then Some [] else None
      end
  end.

(** The lazy group and what follows it: a shorter group is tried before a
    longer one. *)
Fixpoint lazy_emotion (s : pystr) : option (pystr * pystr) :=
  match s with
  | [] => None
  | c :: s' =>
      match (if (c =? RIGHT_BRACKET)%N then greedy_text s' else None) with
      | Some text => Some ([], text)
      | None =>
          if (c =? NEWLINE)%N then None
          else match lazy_emotion s' with
               | Some (emotion, text) => Some (c :: emotion, text)
               | None => None
               end
      end
  end.

(** Lines 57-64: [(match.group(1), match.group(2))], or [None] when the
    name does not match. *)
Definition match_wav_name (file : pystr) : option (pystr * pystr) :=
  match file with
  | c :: s => if (c =? LEFT_BRACKET)%N then lazy_emotion s else None
  | [] => None
  end.

(** Lines 78-89: [full_name], from the name of the folder. *)
Definition full_name (folder_name : pystr) : pystr :=
  let folder_parts := PyStr.split folder_name HYPHEN in
  if (3 <=? length folder_parts)
     && PyStr.eqb (nth 1 folder_parts []) CHINESE
  then
    let series_name := nth 0 folder_parts [] in
    let role_name := nth 2 folder_parts [] in
    series_name ++ [UNDERSCORE] ++ role_name
  else PyStr.replace_char folder_name HYPHEN [UNDERSCORE].

(** Line 114: [f"zh-{full_name}-{emotion_en}.pt"] *)
Definition new_filename (full_name emotion_en : pystr) : pystr :=
  ZH_DASH ++ full_name ++ [HYPHEN] ++ emotion_en ++ DOT_PT.

(** ** Concrete inputs *)

(** ["A"], ["A_ZH"], ["A_ZH_ZH"], ["B"], ["english"], ["english_ZH"] *)
Definition key_A : pystr := [65]%N.
Definition key_A_ZH : pystr := [65; 95; 90; 72]%N.
Definition key_A_ZH_ZH : pystr := [65; 95; 90; 72; 95; 90; 72]%N.
Definition key_B : pystr := [66]%N.
Definition key_english : pystr := [101; 110; 103; 108; 105; 115; 104]%N.
Definition key_english_ZH : pystr :=
  [101; 110; 103; 108; 105; 115; 104; 95; 90; 72]%N.

(** [{"tags": tags, "emotion": [null] * n, "note": note}] *)
Definition sample (tags : list pystr) (n : nat) (note : pystr) : record :=
  {| r_tags := Some tags;
     r_emotion := Some (JArr (replicate n JNull));
     r_others := [([110; 111; 116; 101]%N, JStr note)] |}.

(** The end-to-end example of the specification, with the unmarked key
    first: [{"A": {tags: ["y"], emotion: []},
             "A_ZH": {tags: ["x"], emotion: [1,2,3,4,5,6]}}]. *)
Definition example_data : dict record :=
  [ (key_A, sample [[121]%N] 0 [117]%N);
    (key_A_ZH, sample [[120]%N] 6 [109]%N) ].

Definition example_output : dict record :=
  [ (key_A_ZH, sample [[120]%N; [121]%N] 6 [109]%N) ].

(** Three keys of one canonical identity, two of them marked. *)
Definition two_marked_data : dict record :=
  [ (key_A_ZH_ZH, sample [] 6 [49]%N);
    (key_A_ZH, sample [] 6 [50]%N);
    (key_A, sample [] 0 [51]%N) ].

(** A marked and an unmarked key that the language filter excludes. *)
Definition excluded_data : dict record :=
  [ (key_english_ZH, sample [] 6 [50]%N);
    (key_english, sample [] 0 [51]%N) ].

Definition precedence_data : dict record :=
  [ (key_B, sample [[122]%N] 6 [98]%N);
    (key_A_ZH, sample [[120]%N] 6 [109]%N);
    (key_A, sample [[121]%N] 0 [117]%N) ].

(** [{"A_ZH": {tags: ["a","b"]}, "A": {tags: ["b","c"]}}] *)
Definition union_data : dict record :=
  [ (key_A_ZH, sample [[97]%N; [98]%N] 6 [109]%N);
    (key_A, sample [[98]%N; [99]%N] 6 [117]%N) ].

(** Three surviving keys of one canonical identity, each with a tag of its
    own: [{"A_ZH_ZH": {tags: ["c"]}, "A_ZH": {tags: ["a"]},
           "A": {tags: ["b"]}}]. *)
Definition three_variants_data : dict record :=
  [ (key_A_ZH_ZH, sample [[99]%N] 6 [49]%N);
    (key_A_ZH, sample [[97]%N] 6 [50]%N);
    (key_A, sample [[98]%N] 6 [51]%N) ].

(** Two keys of one canonical identity that the language filter excludes:
    [{"english_ZH": {tags: ["a","b"]}, "english": {tags: ["b","c"]}}]. *)
Definition excluded_tags_data : dict record :=
  [ (key_english_ZH, sample [[97]%N; [98]%N] 6 [50]%N);
    (key_english, sample [[98]%N; [99]%N] 6 [51]%N) ].

(** ["普通人"], which contains the banned entry ["普通"], and ["特殊人"],
    which contains no banned entry. *)
Definition tag_ordinary_person : pystr := [26222; 36890; 20154]%N.
Definition tag_special_person : pystr := [29305; 27530; 20154]%N.

(** [precedence_data] after the run. *)
Definition precedence_output : dict record :=
  [ (key_A_ZH, sample [[120]%N; [121]%N] 6 [109]%N);
    (key_B, sample [[122]%N] 6 [98]%N) ].

(** The unmarked variant of ["A"] carries the tag ["普通人"], which contains
    the banned entry ["普通"]. *)
Definition banned_variant_data : dict record :=
  [ (key_A_ZH, sample [[120]%N] 6 [109]%N);
    (key_A, sample [[26222; 36890; 20154]%N] 6 [117]%N);
    (key_B, sample [[122]%N] 6 [98]%N) ].

Definition banned_variant_output : dict record :=
  [ (key_B, sample [[122]%N] 6 [98]%N) ].

(** ** Facts about the string operations *)

Module PyStrFacts.
Import PyStr.

Lemma startswith_spec s pat :
  startswith s pat = true ↔ ∃ post, s = pat ++ post.
Proof.
  revert s. induction pat as [|p pat IH]; intros s; simpl.
  - split; [intros _; by exists s | done].
  - destruct s as [|c s]; simpl.
    + split; [done | intros [post H]; discriminate].
    + rewrite andb_true_iff, N.eqb_eq, IH. split.
      * intros [-> [post ->]]. by exists post.
      * intros [post H]. injection H as -> ->. eauto.
Qed.

Lemma endswith_spec s suf :
  endswith s suf = true ↔ ∃ pre, s = pre ++ suf.
Proof.
  unfold endswith. rewrite startswith_spec. split.
  - intros [post H]. exists (rev post).
    apply (f_equal (@rev N)) in H.
    by rewrite rev_involutive, rev_app_distr, rev_involutive in H.
  - intros [pre ->]. exists (rev pre). by rewrite rev_app_distr.
Qed.

Lemma contains_spec s sub :
  contains s sub = true ↔ ∃ pre post, s = pre ++ sub ++ post.
Proof.
  induction s as [|c s IH]; simpl.
  - rewrite orb_false_r, startswith_spec. split.
    + intros [post H]. by exists [], post.
    + intros [pre [post H]]. destruct pre; [by exists post |].
      discriminate.
  - rewrite orb_true_iff, IH. split.
    + intros [H | [pre [post ->]]].
      * apply startswith_spec in H as [post H]. by exists [], post.
      * by exists (c :: pre), post.
    + intros [pre [post H]]. destruct pre as [|c' pre]; simpl in H.
      * left. apply startswith_spec. by exists post.
      * right. injection H as -> ->. by exists pre, post.
Qed.

Lemma split_nonempty s sep : split s sep ≠ [].
Proof.
  destruct s as [|c s]; simpl; [done |].
  destruct (c =? sep)%N; [done |]. by destruct (split s sep).
Qed.

(** Without separator in it, a string is its own single segment. *)
Lemma split_no_sep s sep : sep ∉ s → split s sep = [s].
Proof.
  induction s as [|c s IH]; intros Hn; simpl; [done |].
  apply not_elem_of_cons in Hn as [Hc Hs].
  destruct (N.eqb_spec c sep) as [->|_]; [done |]. by rewrite IH.
Qed.

Lemma split_app_sep pre seg sep :
  sep ∉ seg →
  ∃ seg0 segs, split (pre ++ sep :: seg) sep = seg0 :: segs ++ [seg].
Proof.
  intros Hn. induction pre as [|c pre (seg0 & segs & IH)]; simpl.
  - rewrite N.eqb_refl, split_no_sep by done. by exists [], [].
  - rewrite IH. destruct (c =? sep)%N.
    + by exists [], (seg0 :: segs).
    + by exists (c :: seg0), segs.
Qed.

(** The last segment is what follows the last separator. *)
Lemma last_split_app pre seg sep :
  sep ∉ seg → last_item (split (pre ++ sep :: seg) sep) = seg.
Proof.
  intros Hn. destruct (split_app_sep pre seg sep Hn) as (seg0 & segs & ->).
  unfold last_item. by rewrite app_comm_cons, last_last.
Qed.


Lemma eqb_eq a b : eqb a b = true ↔ a = b.
Proof. unfold eqb. by rewrite bool_decide_eq_true. Qed.

End PyStrFacts.

(** ** Facts about the string operations at the marker ["_ZH"] *)

Lemma delete_from_cons0 old c s :
  PyStr.delete_from old 0 (c :: s) =
  if PyStr.startswith (c :: s) old
  then PyStr.delete_from old (length old - 1) s
  else c :: PyStr.delete_from old 0 s.
Proof. reflexivity. Qed.

Lemma startswith_ZH_inv s :
  PyStr.startswith s ZH = true → ∃ post, s = 95%N :: 90%N :: 72%N :: post.
Proof. intros H. apply PyStrFacts.startswith_spec in H as [post ->]. by exists post. Qed.

(** No occurrence of ["_ZH"] can begin inside [a] and end inside a ["_ZH"]
    that follows [a]: the marker has no proper prefix that is also a suffix. *)
Lemma startswith_ZH_app c a b :
  PyStr.startswith ((c :: a) ++ ZH ++ b) ZH = PyStr.startswith (c :: a) ZH.
Proof.
  destruct a as [|c2 [|c3 a]]; simpl.
  - by rewrite !andb_false_r.
  - destruct (N.eqb_spec c2 90) as [->|]; simpl; by rewrite ?andb_false_r.
  - done.
Qed.

Lemma delete_from_app_ZH a b n :
  n ≤ length a →
  PyStr.delete_from ZH n (a ++ ZH ++ b) =
  PyStr.delete_from ZH n a ++ PyStr.delete_from ZH 0 b.
Proof.
  revert n. induction a as [|c a IH]; intros n Hn.
  - assert (n = 0) as -> by (simpl in Hn; lia). done.
  - destruct n as [|n].
    + change ((c :: a) ++ ZH ++ b) with (c :: (a ++ ZH ++ b)).
      rewrite !delete_from_cons0.
      change (c :: (a ++ ZH ++ b)) with ((c :: a) ++ ZH ++ b).
      rewrite startswith_ZH_app.
      destruct (PyStr.startswith (c :: a) ZH) eqn:Hs.
      * apply startswith_ZH_inv in Hs as [post Hs]. injection Hs as -> ->.
        apply IH. simpl. lia.
      * rewrite IH by lia. done.
    + simpl in *. apply IH. lia.
Qed.

(** Every occurrence of the marker is deleted, wherever it stands. *)
Lemma base_name_app_ZH a b :
  base_name (a ++ ZH ++ b) = base_name a ++ base_name b.
Proof. unfold base_name. simpl. apply delete_from_app_ZH. lia. Qed.

Lemma base_name_no_ZH s :
  PyStr.contains s ZH = false → base_name s = s.
Proof.
  unfold base_name. simpl. induction s as [|c s IH]; [done |].
  intros H. change (PyStr.contains (c :: s) ZH) with
    (PyStr.startswith (c :: s) ZH || PyStr.contains s ZH) in H.
  apply orb_false_iff in H as [H1 H2].
  rewrite delete_from_cons0, H1, IH; done.
Qed.

Lemma priority_marked k :
  priority k = 1 ↔ PyStr.endswith k ZH = true.
Proof. unfold priority. destruct (PyStr.endswith k ZH); split; done. Qed.

Lemma priority_unmarked k :
  priority k = 2 ↔ PyStr.endswith k ZH = false.
Proof. unfold priority. destruct (PyStr.endswith k ZH); split; done. Qed.

(** ** Facts about ordered dictionaries *)

Section DictFacts.
Context {V : Type}.
Implicit Types (d : dict V) (k : pystr) (v : V).

Lemma dict_get_Some_elem d k v : dict_get d k = Some v → (k, v) ∈ d.
Proof.
  induction d as [|[k' v'] d IH]; simpl; [done |].
  case_decide as Hk.
  - intros [= ->]. subst. apply list_elem_of_here.
  - intros H. apply list_elem_of_further. auto.
Qed.

Lemma dict_get_is_Some d k : is_Some (dict_get d k) ↔ k ∈ dict_keys d.
Proof.
  unfold dict_keys. induction d as [|[k' v'] d IH]; simpl.
  - split; [by intros [? ?] | by intros ?%elem_of_nil].
  - rewrite elem_of_cons. case_decide as Hk; [subst; naive_solver |].
    rewrite IH. naive_solver.
Qed.

Lemma dict_get_None d k : dict_get d k = None ↔ k ∉ dict_keys d.
Proof. rewrite <- dict_get_is_Some, eq_None_not_Some. done. Qed.

Lemma dict_get_elem d k v :
  NoDup (dict_keys d) → (k, v) ∈ d → dict_get d k = Some v.
Proof.
  unfold dict_keys. induction d as [|[k' v'] d IH]; simpl.
  - by intros _ ?%elem_of_nil.
  - intros [Hk' Hd]%NoDup_cons [[= -> ->] | Hin]%elem_of_cons.
    + by rewrite decide_True.
    + rewrite decide_False; [auto |].
      intros ->. apply Hk'. apply list_elem_of_fmap. by exists (k, v).
Qed.

Lemma dict_get_set_eq d k v : dict_get (dict_set d k v) k = Some v.
Proof.
  induction d as [|[k' v'] d IH]; simpl.
  - by rewrite decide_True.
  - case_decide as Hk; simpl; [by rewrite decide_True |].
    by rewrite decide_False.
Qed.

Lemma dict_get_set_ne d k k' v :
  k ≠ k' → dict_get (dict_set d k v) k' = dict_get d k'.
Proof.
  intros Hne. induction d as [|[k0 v0] d IH]; simpl.
  - by rewrite decide_False.
  - case_decide as Hk; simpl; [subst; by rewrite !decide_False |].
    by rewrite IH.
Qed.

Lemma dict_set_new d k v : k ∉ dict_keys d → dict_set d k v = d ++ [(k, v)].
Proof.
  unfold dict_keys. induction d as [|[k0 v0] d IH]; simpl; [done |].
  intros [Hne Hd]%not_elem_of_cons.
  rewrite decide_False by done. by rewrite IH.
Qed.

Lemma dict_keys_set_old d k v :
  k ∈ dict_keys d → dict_keys (dict_set d k v) = dict_keys d.
Proof.
  unfold dict_keys. induction d as [|[k0 v0] d IH]; simpl.
  - by intros ?%elem_of_nil.
  - intros Hin. case_decide as Hk; simpl; [done |].
    f_equal. apply IH. apply elem_of_cons in Hin as [->|]; done.
Qed.

Lemma dict_keys_set d k v :
  ∀ k', k' ∈ dict_keys (dict_set d k v) ↔ k' = k ∨ k' ∈ dict_keys d.
Proof.
  intros k'. rewrite <- !dict_get_is_Some.
  destruct (decide (k = k')) as [->|Hne].
  - rewrite dict_get_set_eq. naive_solver.
  - rewrite dict_get_set_ne by done. naive_solver.
Qed.

Lemma dict_keys_set_NoDup d k v :
  NoDup (dict_keys d) → NoDup (dict_keys (dict_set d k v)).
Proof.
  intros Hd. destruct (decide (k ∈ dict_keys d)) as [Hin|Hnin].
  - by rewrite dict_keys_set_old.
  - rewrite dict_set_new by done. unfold dict_keys in *.
    rewrite fmap_app. apply NoDup_app. split_and!; [done | | ].
    + intros x Hx [->|[]%elem_of_nil]%elem_of_cons. done.
    + apply NoDup_singleton.
Qed.

(** Two dictionaries with the same items, in any order, are the same
    mapping. *)
Lemma dict_get_Permutation d d' k :
  NoDup (dict_keys d) → d ≡ₚ d' → dict_get d' k = dict_get d k.
Proof.
  intros Hd Hp.
  assert (NoDup (dict_keys d')) as Hd'.
  { unfold dict_keys in *. by rewrite <- Hp. }
  destruct (dict_get d k) as [v|] eqn:Hg.
  - apply dict_get_elem; [done |]. rewrite <- Hp. by apply dict_get_Some_elem.
  - apply dict_get_None. apply dict_get_None in Hg.
    unfold dict_keys in *. by rewrite <- Hp.
Qed.
End DictFacts.

(** ** The sort of line 44 is a stable partition *)

Section SortedFacts.
Context {A : Type} (prio : A → nat).

Lemma insert_by_low x l :
  (∀ y, y ∈ l → prio x ≤ prio y) → insert_by prio x l = x :: l.
Proof.
  destruct l as [|y l]; simpl; [done |]. intros H.
  destruct (Nat.leb_spec (prio x) (prio y)) as [_|Hlt]; [done |].
  specialize (H y (list_elem_of_here _ _)). lia.
Qed.

Lemma insert_by_app x l1 l2 :
  (∀ y, y ∈ l1 → prio y < prio x) →
  insert_by prio x (l1 ++ l2) = l1 ++ insert_by prio x l2.
Proof.
  induction l1 as [|y l1 IH]; simpl; [done |]. intros H.
  destruct (Nat.leb_spec (prio x) (prio y)) as [Hle|_].
  - specialize (H y (list_elem_of_here _ _)). lia.
  - rewrite IH; [done |]. intros z Hz. apply H. by apply list_elem_of_further.
Qed.
End SortedFacts.

Lemma sorted_by_priority (l : list pystr) :
  sorted_by priority l = filter marked l ++ filter (λ k, ¬ marked k) l.
Proof.
  induction l as [|x l IH]; simpl; [done |]. rewrite IH.
  destruct (decide (marked x)) as [Hm|Hm].
  - rewrite filter_cons_True by done.
    rewrite (filter_cons_False (λ k, ¬ marked k)) by (simpl; tauto).
    apply insert_by_low. intros y _.
    apply priority_marked in Hm. rewrite Hm. unfold priority. case_match; lia.
  - rewrite filter_cons_False by done.
    rewrite (filter_cons_True (λ k, ¬ marked k)) by done.
    assert (priority x = 2) as Hx.
    { apply priority_unmarked. unfold marked in Hm. by destruct (PyStr.endswith x ZH). }
    rewrite insert_by_app.
    + f_equal. apply insert_by_low.
      intros y [Hy _]%list_elem_of_filter. rewrite Hx.
      unfold marked in Hy. unfold priority.
      destruct (PyStr.endswith y ZH); [naive_solver | lia].
    + intros y [Hy _]%list_elem_of_filter. rewrite Hx.
      apply priority_marked in Hy. lia.
Qed.

Lemma sorted_keys_elem (data : dict record) k :
  k ∈ sorted_keys data ↔ k ∈ dict_keys data.
Proof.
  unfold sorted_keys. rewrite sorted_by_priority.
  by rewrite (filter_app_complement marked (dict_keys data)).
Qed.

(** ** The invariant of the merge loop *)

Section MergeFacts.
Variable lower : pystr → pystr.
Variable set_union_list : list pystr → list pystr → list pystr.

Lemma merge_inv_init data : merge_inv lower data ∅ ∅ [].
Proof.
  split.
  - intros b k H. by rewrite lookup_empty in H.
  - intros k H. by apply elem_of_nil in H.
  - intros b. rewrite lookup_empty. split.
    + by intros [? ?].
    + intros (k & Hk & _). set_solver.
  - apply NoDup_nil_2.
  - intros k r H. done.
Qed.

Lemma merge_inv_distinct data seen tm md k1 k2 :
  merge_inv lower data seen tm md →
  k1 ∈ dict_keys md → k2 ∈ dict_keys md →
  base_name k1 = base_name k2 → k1 = k2.
Proof.
  intros Hinv H1 H2 Hb.
  apply (inv_stored _ _ _ _ _ Hinv) in H1, H2. rewrite Hb in H1. congruence.
Qed.

Lemma merge_step_inv data seen tm md key :
  merge_inv lower data seen tm md →
  key ∈ dict_keys data →
  ∃ tm' md',
    merge_step lower set_union_list data (tm, md) key = Ok (tm', md') ∧
    merge_inv lower data ({[key]} ∪ seen) tm' md'.
Proof.
  intros [Hch Hst Hseen Hnd Hdata] Hkey.
  apply dict_get_is_Some in Hkey as [value Hvalue].
  unfold merge_step, dict_item. rewrite Hvalue. simpl.
  destruct (is_excluded lower key) eqn:Hex.
  { exists tm, md. split; [done |]. split; try done.
    - intros b. rewrite Hseen. split.
      + intros (k & ? & ? & ?). exists k. set_solver.
      + intros (k & [->%elem_of_singleton|?]%elem_of_union & Hs & ?).
        * unfold survives in Hs. congruence.
        * by exists k.
    - intros k r Hk. destruct (Hdata k r Hk) as (? & ? & ?).
      split_and!; [set_solver | done | done]. }
  destruct (tm !! base_name key) as [existing_key|] eqn:Htm.
  - destruct (Hch _ _ Htm) as [Hbase Hin].
    pose proof Hin as [existing_data Hed]%dict_get_is_Some.
    rewrite Hed. simpl. eexists _, _. split; [done |].
    split.
    + intros b k Hb. destruct (Hch _ _ Hb) as [? ?].
      split; [done |]. by rewrite dict_keys_set_old.
    + intros k. rewrite dict_keys_set_old by done. apply Hst.
    + intros b. rewrite Hseen. split.
      * intros (k & ? & ? & ?). exists k. set_solver.
      * intros (k & [->%elem_of_singleton|?]%elem_of_union & Hs & Hb).
        -- exists existing_key. split_and!; [ | | congruence].
           ++ by destruct (Hdata _ _ Hed) as (? & ? & ?).
           ++ by destruct (Hdata _ _ Hed) as (? & ? & ?).
        -- by exists k.
    + by rewrite dict_keys_set_old.
    + intros k r. destruct (decide (existing_key = k)) as [<-|Hne].
      * rewrite dict_get_set_eq. intros [= <-].
        destruct (Hdata _ _ Hed) as (? & ? & r0 & ? & ?).
        split_and!; [set_solver | done |]. by exists r0.
      * rewrite dict_get_set_ne by done. intros Hk.
        destruct (Hdata _ _ Hk) as (? & ? & ?).
        split_and!; [set_solver | done | done].
  - assert (key ∉ dict_keys md) as Hnew.
    { intros Hin. apply Hst in Hin. congruence. }
    eexists _, _. split; [done |]. split.
    + intros b k. destruct (decide (base_name key = b)) as [<-|Hne].
      * rewrite lookup_insert_eq. intros [= <-].
        split; [done |]. apply dict_keys_set. by left.
      * rewrite lookup_insert_ne by done. intros Hb.
        destruct (Hch _ _ Hb). split; [done |]. apply dict_keys_set. by right.
    + intros k [->|Hin]%dict_keys_set; [by rewrite lookup_insert_eq |].
      rewrite lookup_insert_ne; [by apply Hst |].
      intros Heq. apply Hst in Hin. congruence.
    + intros b. destruct (decide (base_name key = b)) as [<-|Hne].
      * rewrite lookup_insert_eq. split; [| by eauto].
        intros _. exists key. split_and!; [set_solver | done | done].
      * rewrite lookup_insert_ne by done. rewrite Hseen. split.
        -- intros (k & ? & ? & ?). exists k. set_solver.
        -- intros (k & [->%elem_of_singleton|?]%elem_of_union & Hs & Hb);
             [done | by exists k].
    + by apply dict_keys_set_NoDup.
    + intros k r. destruct (decide (key = k)) as [<-|Hne].
      * rewrite dict_get_set_eq. intros [= <-].
        split_and!; [set_solver | done |]. by exists value.
      * rewrite dict_get_set_ne by done. intros Hk.
        destruct (Hdata _ _ Hk) as (? & ? & ?).
        split_and!; [set_solver | done | done].
Qed.

Lemma merge_loop_cons data key keys st :
  merge_loop lower set_union_list data (key :: keys) st =
  merge_step lower set_union_list data st key ≫=
  merge_loop lower set_union_list data keys.
Proof. reflexivity. Qed.

Lemma merge_loop_inv data keys seen tm md :
  merge_inv lower data seen tm md →
  (∀ k, k ∈ keys → k ∈ dict_keys data) →
  ∃ tm' md',
    merge_loop lower set_union_list data keys (tm, md) = Ok (tm', md') ∧
    merge_inv lower data (list_to_set keys ∪ seen) tm' md'.
Proof.
  revert seen tm md. induction keys as [|key keys IH]; intros seen tm md Hinv Hin.
  - exists tm, md. split; [done |].
    by replace (list_to_set [] ∪ seen) with seen by set_solver.
  - destruct (merge_step_inv data seen tm md key Hinv) as (tm1 & md1 & Hstep & Hinv1).
    { apply Hin, list_elem_of_here. }
    destruct (IH _ _ _ Hinv1) as (tm' & md' & Hloop & Hinv').
    { intros k Hk. by apply Hin, list_elem_of_further. }
    exists tm', md'. rewrite merge_loop_cons, Hstep. split; [done |].
    by replace (list_to_set (key :: keys) ∪ seen)
      with (list_to_set keys ∪ ({[key]} ∪ seen)) by set_solver.
Qed.

(** The merge stage raises nothing, and its result satisfies the invariant
    for the whole set of input keys. *)
Lemma merge_stage_inv data :
  ∃ tm merged_data,
    merge_stage lower set_union_list data = Ok merged_data ∧
    merge_inv lower data (list_to_set (dict_keys data)) tm merged_data.
Proof.
  destruct (merge_loop_inv data (sorted_keys data) ∅ ∅ [] (merge_inv_init data))
    as (tm & md & Hloop & Hinv).
  { intros k. by rewrite sorted_keys_elem. }
  exists tm, md. unfold merge_stage. rewrite Hloop. split; [done |].
  replace (list_to_set (dict_keys data))
    with (list_to_set (C:=gset pystr) (sorted_keys data) ∪ ∅); [done |].
  apply set_eq. intros k.
  rewrite elem_of_union, !elem_of_list_to_set, sorted_keys_elem. set_solver.
Qed.
End MergeFacts.

(** ** Merge completeness *)

(** C1: the merge stage returns a mapping with pairwise distinct keys in
    which no two keys have the same canonical identity, in which every
    canonical identity of an input key that survives the language filter has
    exactly one representative, and whose keys are all surviving input
    keys. *)
Theorem merge_one_record_per_identity
    (lower : pystr → pystr)
    (set_union_list : list pystr → list pystr → list pystr)
    (data : dict record) :
  ∃ merged_data,
    merge_stage lower set_union_list data = Ok merged_data ∧
    NoDup (dict_keys merged_data) ∧
    (∀ k1 k2,
       k1 ∈ dict_keys merged_data → k2 ∈ dict_keys merged_data →
       base_name k1 = base_name k2 → k1 = k2) ∧
    (∀ k,
       k ∈ dict_keys data → survives lower k →
       ∃ k',
         (k' ∈ dict_keys merged_data ∧ base_name k' = base_name k) ∧
         ∀ k'',
           k'' ∈ dict_keys merged_data ∧ base_name k'' = base_name k →
           k'' = k') ∧
    (∀ k',
       k' ∈ dict_keys merged_data →
       k' ∈ dict_keys data ∧ survives lower k').
Proof.
  destruct (merge_stage_inv lower set_union_list data) as (tm & md & Hrun & Hinv).
  exists md. split_and!; [done | apply Hinv | | | ].
  - intros k1 k2. by apply (merge_inv_distinct _ _ _ _ _ _ _ Hinv).
  - intros k Hk Hs.
    destruct (proj2 (inv_seen _ _ _ _ _ Hinv (base_name k))) as [k' Hk'].
    { exists k. by rewrite elem_of_list_to_set. }
    destruct (inv_chosen _ _ _ _ _ Hinv _ _ Hk') as [Hb Hin].
    exists k'. split; [done |]. intros k'' [Hin'' Hb''].
    apply (merge_inv_distinct _ _ _ _ _ _ _ Hinv); congruence.
  - intros k' [r Hr]%dict_get_is_Some.
    destruct (inv_data _ _ _ _ _ Hinv _ _ Hr) as (Hin & Hs & _).
    by rewrite elem_of_list_to_set in Hin.
Qed.

(** ** The key that is stored is the first one seen *)

Section MergeOrder.
Variable lower : pystr → pystr.
Variable set_union_list : list pystr → list pystr → list pystr.

Lemma merge_step_keys data tm md key tm' md' :
  merge_step lower set_union_list data (tm, md) key = Ok (tm', md') →
  ∀ k, k ∈ dict_keys md → k ∈ dict_keys md'.
Proof.
  unfold merge_step, dict_item.
  destruct (dict_get data key) as [value|]; simpl; [| done].
  destruct (is_excluded lower key); [by intros [= <- <-] |].
  destruct (tm !! base_name key) as [existing_key|].
  - destruct (dict_get md existing_key) as [existing_data|]; simpl; [| done].
    intros [= <- <-] k Hk. apply dict_keys_set. by right.
  - intros [= <- <-] k Hk. apply dict_keys_set. by right.
Qed.

Lemma merge_loop_keys data keys tm md tm' md' :
  merge_loop lower set_union_list data keys (tm, md) = Ok (tm', md') →
  ∀ k, k ∈ dict_keys md → k ∈ dict_keys md'.
Proof.
  revert tm md. induction keys as [|key keys IH]; intros tm md.
  - by intros [= <- <-].
  - rewrite merge_loop_cons.
    destruct (merge_step lower set_union_list data (tm, md) key)
      as [[tm1 md1]|] eqn:Hstep; simpl; [| done].
    intros Hloop k Hk. eapply IH; [done |]. by eapply merge_step_keys.
Qed.

Lemma merge_loop_app data keys1 keys2 st :
  merge_loop lower set_union_list data (keys1 ++ keys2) st =
  merge_loop lower set_union_list data keys1 st ≫=
  merge_loop lower set_union_list data keys2.
Proof.
  revert st. induction keys1 as [|key keys1 IH]; intros st; [done |].
  rewrite <- app_comm_cons, !merge_loop_cons.
  destruct (merge_step lower set_union_list data st key); simpl; [apply IH | done].
Qed.

(** A surviving key whose canonical identity no earlier surviving key has
    is stored under its own name. *)
Lemma merge_step_first data seen tm md key :
  merge_inv lower data seen tm md →
  key ∈ dict_keys data →
  survives lower key →
  (∀ k, k ∈ seen → survives lower k → base_name k ≠ base_name key) →
  ∃ tm' md',
    merge_step lower set_union_list data (tm, md) key = Ok (tm', md') ∧
    merge_inv lower data ({[key]} ∪ seen) tm' md' ∧
    key ∈ dict_keys md'.
Proof.
  intros Hinv Hkey Hs Hfirst.
  destruct (merge_step_inv lower set_union_list data seen tm md key Hinv Hkey)
    as (tm' & md' & Hstep & Hinv').
  exists tm', md'. split_and!; [done | done |].
  destruct (proj2 (inv_seen _ _ _ _ _ Hinv' (base_name key))) as [k' Hk'].
  { exists key. split_and!; [set_solver | done | done]. }
  destruct (inv_chosen _ _ _ _ _ Hinv' _ _ Hk') as [Hb Hin].
  pose proof Hin as [r Hr]%dict_get_is_Some.
  destruct (inv_data _ _ _ _ _ Hinv' _ _ Hr) as (Hseen' & Hs' & _).
  apply elem_of_union in Hseen' as [->%elem_of_singleton|Hseen']; [done |].
  by destruct (Hfirst k' Hseen' Hs').
Qed.
End MergeOrder.

(** ** The tags of a stored record *)

Section MergeTags.
Variable lower : pystr → pystr.
Variable set_union_list : list pystr → list pystr → list pystr.

Hypothesis set_union_list_spec :
  ∀ a b t, t ∈ set_union_list a b ↔ t ∈ a ∨ t ∈ b.

Lemma merge_step_tags data seen tm md key tm' md' :
  merge_inv lower data seen tm md →
  tags_inv lower data seen md →
  merge_step lower set_union_list data (tm, md) key = Ok (tm', md') →
  tags_inv lower data ({[key]} ∪ seen) md'.
Proof.
  intros [Hch Hst Hseen Hnd Hdata] Htags.
  unfold merge_step, dict_item.
  destruct (dict_get data key) as [value|] eqn:Hvalue; simpl; [| done].
  destruct (is_excluded lower key) eqn:Hex.
  { intros [= <- <-] k r Hk t. rewrite (Htags k r Hk t). split.
    - intros (k' & r' & ? & ?). exists k', r'. split; [set_solver | done].
    - intros (k' & r' & [->%elem_of_singleton|?]%elem_of_union & Hs & ?).
      + unfold survives in Hs. congruence.
      + by exists k', r'. }
  destruct (tm !! base_name key) as [ek|] eqn:Htm.
  - destruct (Hch _ _ Htm) as [Hbase Hin].
    pose proof Hin as [ed Hed]%dict_get_is_Some. rewrite Hed. simpl.
    intros [= <- <-] k r. destruct (decide (ek = k)) as [<-|Hne].
    + rewrite dict_get_set_eq. intros [= <-] t.
      change (get_tags (set_tags ed ?l)) with l.
      rewrite set_union_list_spec, (Htags _ _ Hed t). split.
      * intros [(k' & r' & ? & ?) | Ht].
        -- exists k', r'. split; [set_solver | done].
        -- exists key, value. split_and!; [set_solver | done..].
      * intros (k' & r' & [->%elem_of_singleton|?]%elem_of_union & Hs & Hb & Hd & Ht).
        -- right. rewrite Hvalue in Hd. by injection Hd as <-.
        -- left. by exists k', r'.
    + rewrite dict_get_set_ne by done. intros Hk t.
      rewrite (Htags _ _ Hk t). split.
      * intros (k' & r' & ? & ?). exists k', r'. split; [set_solver | done].
      * intros (k' & r' & [->%elem_of_singleton|?]%elem_of_union & Hs & Hb & Hd & Ht).
        -- exfalso. apply Hne.
           assert (k ∈ dict_keys md) as Hkin by (apply dict_get_is_Some; eauto).
           apply Hst in Hkin. rewrite <- Hb, Htm in Hkin. congruence.
        -- by exists k', r'.
  - intros [= <- <-] k r. destruct (decide (key = k)) as [<-|Hne].
    + rewrite dict_get_set_eq. intros [= <-] t. split.
      * intros Ht. exists key, value. split_and!; [set_solver | done..].
      * intros (k' & r' & [->%elem_of_singleton|?]%elem_of_union & Hs & Hb & Hd & Ht).
        -- rewrite Hvalue in Hd. by injection Hd as <-.
        -- exfalso. assert (is_Some (tm !! base_name key)) as [? ?]; [| congruence].
           apply Hseen. by exists k'.
    + rewrite dict_get_set_ne by done. intros Hk t.
      rewrite (Htags _ _ Hk t). split.
      * intros (k' & r' & ? & ?). exists k', r'. split; [set_solver | done].
      * intros (k' & r' & [->%elem_of_singleton|?]%elem_of_union & Hs & Hb & Hd & Ht).
        -- exfalso.
           assert (k ∈ dict_keys md) as Hkin by (apply dict_get_is_Some; eauto).
           apply Hst in Hkin. rewrite <- Hb in Hkin. congruence.
        -- by exists k', r'.
Qed.

Lemma merge_loop_tags data keys seen tm md tm' md' :
  merge_inv lower data seen tm md →
  tags_inv lower data seen md →
  (∀ k, k ∈ keys → k ∈ dict_keys data) →
  merge_loop lower set_union_list data keys (tm, md) = Ok (tm', md') →
  tags_inv lower data (list_to_set keys ∪ seen) md'.
Proof.
  revert seen tm md.
  induction keys as [|key keys IH]; intros seen tm md Hinv Htags Hin.
  - intros [= <- <-]. by replace (list_to_set [] ∪ seen) with seen by set_solver.
  - replace (list_to_set (key :: keys) ∪ seen)
      with (list_to_set keys ∪ ({[key]} ∪ seen)) by set_solver.
    rewrite merge_loop_cons.
    destruct (merge_step_inv lower set_union_list data seen tm md key Hinv)
      as (tm1 & md1 & Hstep & Hinv1).
    { apply Hin, list_elem_of_here. }
    rewrite Hstep. intros Hloop.
    eapply IH; [done | by eapply merge_step_tags | | done].
    intros k Hk. by apply Hin, list_elem_of_further.
Qed.

(** After the merge stage the tags of a stored record are, as a set, the
    union of the tags of all surviving input records of its canonical
    identity. *)
Lemma merge_stage_tags data merged_data :
  merge_stage lower set_union_list data = Ok merged_data →
  tags_inv lower data (list_to_set (dict_keys data)) merged_data.
Proof.
  unfold merge_stage.
  destruct (merge_loop lower set_union_list data (sorted_keys data) (∅, []))
    as [[tm md]|] eqn:Hloop; simpl; [| done].
  intros [= <-].
  replace (list_to_set (dict_keys data))
    with (list_to_set (C:=gset pystr) (sorted_keys data) ∪ ∅).
  - eapply merge_loop_tags; [apply merge_inv_init | | | done].
    + intros k r H. done.
    + intros k. by rewrite sorted_keys_elem.
  - apply set_eq. intros k.
    rewrite elem_of_union, !elem_of_list_to_set, sorted_keys_elem. set_solver.
Qed.
End MergeTags.

Lemma result_bind_Ok {A B} (f : A → result B) (a : A) : Ok a ≫= f = f a.
Proof. reflexivity. Qed.

Lemma merge_stage_first lower set_union_list data keys1 km keys2 :
  sorted_keys data = keys1 ++ km :: keys2 →
  survives lower km →
  (∀ k, k ∈ keys1 → survives lower k → base_name k ≠ base_name km) →
  ∃ tm merged_data,
    merge_stage lower set_union_list data = Ok merged_data ∧
    merge_inv lower data (list_to_set (dict_keys data)) tm merged_data ∧
    km ∈ dict_keys merged_data.
Proof.
  intros Hsorted Hs Hfirst.
  assert (∀ k, k ∈ keys1 ++ km :: keys2 → k ∈ dict_keys data) as Hin.
  { intros k. by rewrite <- Hsorted, sorted_keys_elem. }
  destruct (merge_loop_inv lower set_union_list data keys1 ∅ ∅ []
              (merge_inv_init lower data)) as (tm1 & md1 & Hloop1 & Hinv1).
  { intros k Hk. apply Hin, elem_of_app. by left. }
  destruct (merge_step_first lower set_union_list data _ tm1 md1 km Hinv1)
    as (tm2 & md2 & Hstep & Hinv2 & Hkm); [ | done | | ].
  { apply Hin, elem_of_app. right. apply list_elem_of_here. }
  { intros k [Hk|Hk]%elem_of_union; [| set_solver].
    apply Hfirst. by apply elem_of_list_to_set in Hk. }
  destruct (merge_loop_inv lower set_union_list data keys2 _ tm2 md2 Hinv2)
    as (tm3 & md3 & Hloop3 & Hinv3).
  { intros k Hk. apply Hin, elem_of_app. right. by apply list_elem_of_further. }
  exists tm3, md3. split_and!.
  - unfold merge_stage.
    rewrite Hsorted, merge_loop_app, Hloop1, result_bind_Ok.
    by rewrite merge_loop_cons, Hstep, result_bind_Ok, Hloop3.
  - replace (list_to_set (dict_keys data))
      with (list_to_set (C:=gset pystr) keys2
              ∪ ({[km]} ∪ (list_to_set keys1 ∪ ∅))); [done |].
    apply set_eq. intros k.
    rewrite elem_of_list_to_set, <- sorted_keys_elem, Hsorted.
    rewrite !elem_of_union, !elem_of_list_to_set, elem_of_app, elem_of_cons.
    set_solver.
  - by eapply merge_loop_keys.
Qed.

(** ** Precedence of the marked record *)

(** C2, as amended: when the marked key survives the language filter and no
    surviving marked key before it in the input has its canonical identity,
    the merged record of that identity is stored under the marked key, its
    fields other than [tags] are those of the marked record, and no other
    key of that identity (the unmarked one in particular) is in the merged
    mapping. *)
Theorem marked_record_precedence
    (lower : pystr → pystr)
    (set_union_list : list pystr → list pystr → list pystr)
    (data : dict record) (pre post : list pystr)
    (km : pystr) (rm : record) :
  dict_keys data = pre ++ km :: post →
  dict_get data km = Some rm →
  marked km →
  survives lower km →
  (∀ k, k ∈ pre → marked k → survives lower k → base_name k ≠ base_name km) →
  ∃ merged_data r,
    merge_stage lower set_union_list data = Ok merged_data ∧
    dict_get merged_data km = Some r ∧
    same_but_tags r rm ∧
    ∀ ku, ku ≠ km → base_name ku = base_name km → ku ∉ dict_keys merged_data.
Proof.
  intros Hkeys Hrm Hm Hs Hfirst.
  destruct (merge_stage_first lower set_union_list data
              (filter marked pre)
              km
              (filter marked post ++ filter (λ k, ¬ marked k) (dict_keys data)))
    as (tm & md & Hrun & Hinv & Hkm); [ | done | | ].
  { unfold sorted_keys. rewrite sorted_by_priority. rewrite Hkeys at 1.
    rewrite filter_app, filter_cons_True by done.
    by rewrite <- app_assoc, <- app_comm_cons. }
  { intros k [Hk1 Hk2]%list_elem_of_filter. by apply Hfirst. }
  pose proof Hkm as [r Hr]%dict_get_is_Some.
  exists md, r. split_and!; [done | done | |].
  - destruct (inv_data _ _ _ _ _ Hinv _ _ Hr) as (_ & _ & r0 & Hr0 & Hsame).
    rewrite Hrm in Hr0. by injection Hr0 as <-.
  - intros ku Hne Hb Hku. apply Hne.
    by apply (merge_inv_distinct _ _ _ _ _ _ _ Hinv).
Qed.

(** ** Tag union *)

(** C3, as amended: when the loop body meets a surviving key whose
    canonical identity already has a stored record, it replaces the tags of
    the stored record by a list whose members are those of the stored tags
    and of the current record's tags, and changes nothing else (lines
    65-66).  Hence two input records of one canonical identity whose keys
    both survive the language filter are merged into one record of that
    identity whose tags contain the tags of both; when the two are the only
    surviving records of that identity, the merged tags are, as a set,
    exactly the union of the two tag sets.  An absent [tags] field counts
    as the empty list ([default []]). *)
Theorem merged_tags_are_the_union
    (lower : pystr → pystr)
    (set_union_list : list pystr → list pystr → list pystr)
    (data : dict record) (k1 k2 : pystr) (r1 r2 : record) :
  (∀ a b t, t ∈ set_union_list a b ↔ t ∈ a ∨ t ∈ b) →
  dict_get data k1 = Some r1 →
  dict_get data k2 = Some r2 →
  survives lower k1 →
  survives lower k2 →
  base_name k1 = base_name k2 →
  (∀ (temp_map : gmap pystr pystr) (merged_data : dict record)
     (key existing_key : pystr) (value existing_data : record),
     dict_get data key = Some value →
     survives lower key →
     temp_map !! base_name key = Some existing_key →
     dict_get merged_data existing_key = Some existing_data →
     ∃ merged,
       merge_step lower set_union_list data (temp_map, merged_data) key
       = Ok (temp_map, dict_set merged_data existing_key merged) ∧
       same_but_tags merged existing_data ∧
       ∀ t,
         t ∈ default [] (r_tags merged) ↔
         t ∈ default [] (r_tags existing_data) ∨
         t ∈ default [] (r_tags value)) ∧
  ∃ merged_data k r,
    merge_stage lower set_union_list data = Ok merged_data ∧
    dict_get merged_data k = Some r ∧
    base_name k = base_name k1 ∧
    (∀ t,
       t ∈ default [] (r_tags r1) ∨ t ∈ default [] (r_tags r2) →
       t ∈ default [] (r_tags r)) ∧
    ((∀ k',
        k' ∈ dict_keys data → survives lower k' →
        base_name k' = base_name k1 → k' = k1 ∨ k' = k2) →
     ∀ t,
       t ∈ default [] (r_tags r) ↔
       t ∈ default [] (r_tags r1) ∨ t ∈ default [] (r_tags r2)).
Proof.
  intros Hunion H1 H2 Hs1 Hs2 Hb. split.
  { intros tm0 md0 key ek value ed Hget Hs Htm Hed.
    unfold merge_step, dict_item. rewrite Hget. simpl.
    unfold survives in Hs. rewrite Hs, Htm, Hed. simpl.
    eexists. split_and!; [reflexivity | done |].
    intros t. apply Hunion. }
  destruct (merge_stage_inv lower set_union_list data) as (tm & md & Hrun & Hinv).
  pose proof (merge_stage_tags lower set_union_list Hunion data md Hrun) as Htags.
  assert (k1 ∈ dict_keys data) as Hin1 by (apply dict_get_is_Some; eauto).
  assert (k2 ∈ dict_keys data) as Hin2 by (apply dict_get_is_Some; eauto).
  destruct (proj2 (inv_seen _ _ _ _ _ Hinv (base_name k1))) as [k Hk].
  { exists k1. by rewrite elem_of_list_to_set. }
  destruct (inv_chosen _ _ _ _ _ Hinv _ _ Hk) as [Hbk [r Hr]%dict_get_is_Some].
  exists md, k, r. split_and!; [done | done | done | |].
  - intros t Ht. apply (Htags _ _ Hr t).
    destruct Ht as [Ht|Ht].
    + exists k1, r1. rewrite elem_of_list_to_set. split_and!; done.
    + exists k2, r2. rewrite elem_of_list_to_set. split_and!; (done || congruence).
  - intros Honly t. split.
    + intros (k' & r' & Hk' & Hs' & Hb' & Hr' & Ht)%(Htags _ _ Hr).
      rewrite elem_of_list_to_set in Hk'.
      destruct (Honly k' Hk' Hs') as [->| ->]; [congruence | |].
      * left. rewrite H1 in Hr'. by injection Hr' as <-.
      * right. rewrite H2 in Hr'. by injection Hr' as <-.
    + intros Ht. apply (Htags _ _ Hr t).
      destruct Ht as [Ht|Ht].
      * exists k1, r1. rewrite elem_of_list_to_set. split_and!; done.
      * exists k2, r2. rewrite elem_of_list_to_set. split_and!; (done || congruence).
Qed.

(** ** The filter loop *)

Lemma passes_measurable key value :
  measurable (key, value) ↔ ∃ b, passes key value = Ok b.
Proof.
  unfold measurable, passes. simpl.
  destruct (py_len (emotions_of value)) as [n|e]; simpl.
  - split; [intros _ | by eauto]. repeat case_match; eauto.
  - split; intros [? ?]; done.
Qed.

Lemma filter_loop_cons item items final_data :
  filter_loop (item :: items) final_data =
  filter_step final_data item ≫= filter_loop items.
Proof. reflexivity. Qed.

Lemma filter_loop_spec items final_data F :
  NoDup (dict_keys (final_data ++ items)) →
  filter_loop items final_data = Ok F →
  Forall measurable items ∧ F = final_data ++ filter retained items.
Proof.
  revert final_data. induction items as [|[k v] items IH]; intros final Hnd.
  - intros [= <-]. by rewrite filter_nil, app_nil_r.
  - rewrite filter_loop_cons. unfold filter_step.
    destruct (passes k v) as [b|e] eqn:Hp; simpl; [| done].
    assert (k ∉ dict_keys final) as Hnew.
    { unfold dict_keys in *. rewrite fmap_app in Hnd.
      apply NoDup_app in Hnd as (_ & Hdisj & _). intros Hin.
      apply (Hdisj k Hin). simpl. apply list_elem_of_here. }
    assert (measurable (k, v)) as Hm by (apply passes_measurable; eauto).
    destruct b.
    + rewrite dict_set_new by done. intros Hloop.
      apply IH in Hloop as [Hall ->]; [| by rewrite <- app_assoc].
      split; [by constructor |].
      by rewrite filter_cons_True, <- app_assoc by done.
    + intros Hloop. apply IH in Hloop as [Hall ->].
      * split; [by constructor |].
        rewrite filter_cons_False; [done |]. unfold retained. simpl. congruence.
      * unfold dict_keys in *. rewrite fmap_app in *. simpl in Hnd.
        apply NoDup_app in Hnd as (H1 & H2 & [_ H3]%NoDup_cons).
        apply NoDup_app. split_and!; [done | | done].
        intros x Hx Hin. apply (H2 x Hx). by apply list_elem_of_further.
Qed.

Lemma filter_loop_ok items final_data :
  NoDup (dict_keys (final_data ++ items)) →
  Forall measurable items →
  filter_loop items final_data = Ok (final_data ++ filter retained items).
Proof.
  revert final_data. induction items as [|[k v] items IH]; intros final Hnd Hall.
  - by rewrite filter_nil, app_nil_r.
  - apply Forall_cons in Hall as [[b Hb]%passes_measurable Hall].
    assert (k ∉ dict_keys final) as Hnew.
    { unfold dict_keys in *. rewrite fmap_app in Hnd.
      apply NoDup_app in Hnd as (_ & Hdisj & _). intros Hin.
      apply (Hdisj k Hin). simpl. apply list_elem_of_here. }
    rewrite filter_loop_cons. unfold filter_step. rewrite Hb.
    destruct b; rewrite !result_bind_Ok.
    + rewrite dict_set_new by done. rewrite IH; [| by rewrite <- app_assoc | done].
      by rewrite filter_cons_True, <- app_assoc by done.
    + rewrite IH; [| | done].
      * rewrite filter_cons_False; [done |]. unfold retained. simpl. congruence.
      * unfold dict_keys in *. rewrite fmap_app in *. simpl in Hnd.
        apply NoDup_app in Hnd as (H1 & H2 & [_ H3]%NoDup_cons).
        apply NoDup_app. split_and!; [done | | done].
        intros x Hx Hin. apply (H2 x Hx). by apply list_elem_of_further.
Qed.

(** The filter stage keeps, in their order and unchanged, the items for
    which the loop body reaches line 121. *)
Lemma filter_stage_spec merged_data final_data :
  NoDup (dict_keys merged_data) →
  filter_stage merged_data = Ok final_data →
  Forall measurable merged_data ∧ final_data = filter retained merged_data.
Proof. intros Hnd. by apply (filter_loop_spec merged_data []). Qed.

Lemma filter_stage_ok merged_data :
  NoDup (dict_keys merged_data) →
  Forall measurable merged_data →
  filter_stage merged_data = Ok (filter retained merged_data).
Proof. intros Hnd. by apply (filter_loop_ok merged_data []). Qed.

Lemma tag_hits_spec tag banned_tags :
  tag_hits tag banned_tags = true ↔
  ∃ banned, banned ∈ banned_tags ∧ PyStr.contains tag banned = true.
Proof.
  induction banned_tags as [|banned rest IH]; simpl.
  - split; [done | by intros (? & ?%elem_of_nil & _)].
  - destruct (PyStr.contains tag banned) eqn:Hc.
    + split; [| done]. intros _. exists banned. split; [apply list_elem_of_here | done].
    + rewrite IH. split.
      * intros (b & ? & ?). exists b. split; [by apply list_elem_of_further | done].
      * intros (b & [->|?]%elem_of_cons & ?); [congruence | by exists b].
Qed.

Lemma is_banned_tag_cons tag rest :
  is_banned_tag (tag :: rest) =
  if tag_hits tag BANNED_TAGS then true else is_banned_tag rest.
Proof. reflexivity. Qed.

Lemma is_banned_tag_spec current_tags :
  is_banned_tag current_tags = true ↔
  ∃ tag banned,
    tag ∈ current_tags ∧ banned ∈ BANNED_TAGS ∧
    PyStr.contains tag banned = true.
Proof.
  induction current_tags as [|tag rest IH].
  - split; [done | by intros (? & ? & ?%elem_of_nil & _)].
  - rewrite is_banned_tag_cons. destruct (tag_hits tag BANNED_TAGS) eqn:Hh.
    + split; [| done]. intros _. apply tag_hits_spec in Hh as (b & ? & ?).
      exists tag, b. split; [apply list_elem_of_here | done].
    + rewrite IH. split.
      * intros (t & b & ? & ?). exists t, b. split; [by apply list_elem_of_further | done].
      * intros (t & b & [->|?]%elem_of_cons & Hb & Hc); [| by exists t, b].
        assert (tag_hits tag BANNED_TAGS = true) by (apply tag_hits_spec; eauto).
        congruence.
Qed.

Lemma name_hits_spec key banned_names :
  name_hits key banned_names = true ↔ name_part key ∈ banned_names.
Proof.
  induction banned_names as [|bad_name rest IH]; simpl.
  - split; [done | by intros ?%elem_of_nil].
  - rewrite elem_of_cons. destruct (PyStr.eqb bad_name (name_part key)) eqn:He.
    + apply PyStrFacts.eqb_eq in He. split; [by left | done].
    + rewrite IH. split; [by right |]. intros [Heq|?]; [| done].
      symmetry in Heq. apply PyStrFacts.eqb_eq in Heq. congruence.
Qed.

(** ** The three criteria *)

Lemma emotions_of_list value xs :
  r_emotion value = Some (JArr xs) → emotions_of value = JArr xs.
Proof. intros He. unfold emotions_of. by rewrite He. Qed.

Lemma passes_list key value xs :
  r_emotion value = Some (JArr xs) →
  passes key value =
  Ok (negb (length xs <? MIN_EMOTION_COUNT)
      && negb (is_banned_tag (get_tags value))
      && negb (is_banned_name key)).
Proof.
  intros He. unfold passes. rewrite (emotions_of_list value xs He).
  change (py_len (JArr xs)) with (Ok (length xs)).
  rewrite result_bind_Ok.
  destruct (length xs <? MIN_EMOTION_COUNT); [done |].
  destruct (is_banned_tag (get_tags value)); [done |].
  by destruct (is_banned_name key).
Qed.

(** C4: a record whose [emotion] is a list and which passes both blacklists
    reaches line 121 iff the list has at least [MIN_EMOTION_COUNT] items, and
    is then, and only then, in the result of the filter stage; the stage
    returns whenever the length of every record's [emotions] can be taken.
    With exactly [MIN_EMOTION_COUNT] items the record is kept, with one less
    it is dropped. *)
Theorem emotion_threshold
    (merged_data : dict record) (key : pystr) (value : record)
    (xs : list json) :
  NoDup (dict_keys merged_data) →
  (key, value) ∈ merged_data →
  r_emotion value = Some (JArr xs) →
  is_banned_tag (get_tags value) = false →
  is_banned_name key = false →
  passes key value = Ok (bool_decide (MIN_EMOTION_COUNT ≤ length xs)) ∧
  (∀ final_data,
     filter_stage merged_data = Ok final_data →
     ((key, value) ∈ final_data ↔ MIN_EMOTION_COUNT ≤ length xs)) ∧
  (Forall measurable merged_data →
   ∃ final_data,
     filter_stage merged_data = Ok final_data ∧
     ((key, value) ∈ final_data ↔ MIN_EMOTION_COUNT ≤ length xs)) ∧
  (length xs = MIN_EMOTION_COUNT → passes key value = Ok true) ∧
  (length xs = MIN_EMOTION_COUNT - 1 → passes key value = Ok false).
Proof.
  intros Hnd Hin He Htag Hname.
  assert (passes key value = Ok (bool_decide (MIN_EMOTION_COUNT ≤ length xs)))
    as Hp.
  { rewrite (passes_list key value xs He), Htag, Hname.
    destruct (Nat.ltb_spec (length xs) MIN_EMOTION_COUNT).
    - by rewrite bool_decide_eq_false_2 by lia.
    - by rewrite bool_decide_eq_true_2 by lia. }
  assert (∀ final_data,
            filter_stage merged_data = Ok final_data →
            ((key, value) ∈ final_data ↔ MIN_EMOTION_COUNT ≤ length xs)) as Hst.
  { intros F [_ ->]%filter_stage_spec; [| done].
    rewrite list_elem_of_filter. unfold retained. simpl. rewrite Hp. split.
    - intros [[= Hb] _]. by apply bool_decide_eq_true in Hb.
    - intros Hle. split; [| done]. by rewrite bool_decide_eq_true_2. }
  split_and!; [done | done | | |].
  - intros Hall. exists (filter retained merged_data).
    assert (filter_stage merged_data = Ok (filter retained merged_data)) as Hrun
      by by apply filter_stage_ok.
    split; [done |]. by apply Hst.
  - intros Hlen. rewrite Hp. by rewrite bool_decide_eq_true_2 by lia.
  - intros Hlen. rewrite Hp. rewrite bool_decide_eq_false_2; [done |].
    unfold MIN_EMOTION_COUNT in *. lia.
Qed.

(** C5: what the code does with an [emotion] that is not a list.  A mapping
    is replaced by its first value, or by the empty list when it is empty;
    every other shape is left as it is, so that a string counts its
    characters and [len] raises [TypeError] on a number, a boolean or
    [null], as it does on a mapping whose first value is one of these; the
    exception ends the run. *)
Theorem emotion_shape_not_coerced :
  (∀ tags others,
     py_len (emotions_of (mkRecord tags (Some (JObj [])) others)) = Ok 0) ∧
  (∀ tags others k xs rest,
     py_len (emotions_of (mkRecord tags (Some (JObj ((k, JArr xs) :: rest))) others))
     = Ok (length xs)) ∧
  (∀ tags others k m e rest,
     py_len (emotions_of (mkRecord tags (Some (JObj ((k, JNum m e) :: rest))) others))
     = Raise TypeError) ∧
  (∀ tags others s,
     py_len (emotions_of (mkRecord tags (Some (JStr s)) others))
     = Ok (length s)) ∧
  (∀ tags others m e,
     py_len (emotions_of (mkRecord tags (Some (JNum m e)) others))
     = Raise TypeError) ∧
  (∀ tags others b,
     py_len (emotions_of (mkRecord tags (Some (JBool b)) others))
     = Raise TypeError) ∧
  (∀ tags others,
     py_len (emotions_of (mkRecord tags (Some JNull) others))
     = Raise TypeError) ∧
  strict_filter_json ascii_lower union_in_order
    [([65]%N, mkRecord (Some []) (Some (JNum 7 0)) [])] = Raise TypeError ∧
  passes [65]%N
    (mkRecord (Some []) (Some (JStr [97; 98; 99; 100; 101; 102]%N)) [])
  = Ok true.
Proof. split_and!; try done; by vm_compute. Qed.

(** The criterion of lines 94-102 reads the [tags] field of the record:
    the flag is set exactly when the field is present and one of its
    strings contains an entry of [BANNED_TAGS]. *)
Lemma is_banned_tag_of_record (value : record) :
  is_banned_tag (get_tags value) = true ↔
  ∃ tags tag banned pre post,
    r_tags value = Some tags ∧ tag ∈ tags ∧ banned ∈ BANNED_TAGS ∧
    tag = pre ++ banned ++ post.
Proof.
  rewrite is_banned_tag_spec. unfold get_tags. split.
  - intros (tag & banned & Htag & Hb & (pre & post & ->)%PyStrFacts.contains_spec).
    destruct (r_tags value) as [tags|]; simpl in Htag.
    + by exists tags, (pre ++ banned ++ post), banned, pre, post.
    + by apply elem_of_nil in Htag.
  - intros (tags & tag & banned & pre & post & -> & Htag & Hb & ->).
    exists (pre ++ banned ++ post), banned. split_and!; [done | done |].
    apply PyStrFacts.contains_spec. by exists pre, post.
Qed.

(** C6: the tag criterion fails a record iff one of the strings of its
    [tags] field contains one of the entries of [BANNED_TAGS] as a
    substring.  One such pair is enough: the record does not reach line 121
    and is in no result of the filter stage.  A record with no such tag
    (or with no [tags] field) passes the criterion: when the two other
    criteria let it through, it reaches line 121.  A record with the tag
    ["普通人"] is dropped (by ["普通"]), one with the tag ["特殊人"] is
    kept. *)
Theorem tag_blacklist_is_substring_match (key : pystr) (value : record) :
  (is_banned_tag (get_tags value) = true ↔
   ∃ tag banned pre post,
     tag ∈ get_tags value ∧ banned ∈ BANNED_TAGS ∧
     tag = pre ++ banned ++ post) ∧
  (is_banned_tag (get_tags value) = true ↔
   ∃ tags tag banned pre post,
     r_tags value = Some tags ∧ tag ∈ tags ∧ banned ∈ BANNED_TAGS ∧
     tag = pre ++ banned ++ post) ∧
  (is_banned_tag (get_tags value) = true → passes key value ≠ Ok true) ∧
  (∀ tags tag banned pre post,
     r_tags value = Some tags → tag ∈ tags → banned ∈ BANNED_TAGS →
     tag = pre ++ banned ++ post →
     passes key value ≠ Ok true) ∧
  (∀ n,
     py_len (emotions_of value) = Ok n → MIN_EMOTION_COUNT ≤ n →
     is_banned_name key = false →
     (passes key value = Ok false ↔
      ∃ tags tag banned pre post,
        r_tags value = Some tags ∧ tag ∈ tags ∧ banned ∈ BANNED_TAGS ∧
        tag = pre ++ banned ++ post) ∧
     (passes key value = Ok true ↔
      ¬ ∃ tags tag banned pre post,
          r_tags value = Some tags ∧ tag ∈ tags ∧ banned ∈ BANNED_TAGS ∧
          tag = pre ++ banned ++ post)) ∧
  (∀ merged_data final_data,
     NoDup (dict_keys merged_data) →
     filter_stage merged_data = Ok final_data →
     (key, value) ∈ final_data →
     is_banned_tag (get_tags value) = false ∧
     ¬ ∃ tags tag banned pre post,
         r_tags value = Some tags ∧ tag ∈ tags ∧ banned ∈ BANNED_TAGS ∧
         tag = pre ++ banned ++ post) ∧
  is_banned_tag [[26222; 36890; 20154]%N] = true ∧
  is_banned_tag [[29305; 27530; 20154]%N] = false ∧
  passes key_A (sample [[120]%N; tag_ordinary_person] 6 [110]%N) = Ok false ∧
  passes key_B (sample [[120]%N; tag_special_person] 6 [110]%N) = Ok true ∧
  filter_stage
    [ (key_A, sample [[120]%N; tag_ordinary_person] 6 [110]%N);
      (key_B, sample [[120]%N; tag_special_person] 6 [110]%N) ]
  = Ok [ (key_B, sample [[120]%N; tag_special_person] 6 [110]%N) ].
Proof.
  pose proof (is_banned_tag_of_record value) as Hfield.
  assert (is_banned_tag (get_tags value) = true → passes key value ≠ Ok true)
    as Hdrop.
  { intros Hb. unfold passes.
    destruct (py_len (emotions_of value)) as [n|e]; [| done].
    rewrite result_bind_Ok, Hb. by destruct (n <? MIN_EMOTION_COUNT). }
  assert (∀ merged_data final_data,
            NoDup (dict_keys merged_data) →
            filter_stage merged_data = Ok final_data →
            (key, value) ∈ final_data →
            is_banned_tag (get_tags value) = false) as Hout.
  { intros md F Hnd [_ ->]%filter_stage_spec [Hp _]%list_elem_of_filter;
      [| done].
    destruct (is_banned_tag (get_tags value)); [by destruct Hdrop | done]. }
  split_and!; [| exact Hfield | exact Hdrop | | | | done | by vm_compute
              | by vm_compute | by vm_compute | by vm_compute].
  - rewrite is_banned_tag_spec. split.
    + intros (tag & banned & ? & ? & (pre & post & ->)%PyStrFacts.contains_spec).
      by exists (pre ++ banned ++ post), banned, pre, post.
    + intros (tag & banned & pre & post & ? & ? & ->).
      exists (pre ++ banned ++ post), banned. split_and!; [done | done |].
      apply PyStrFacts.contains_spec. by exists pre, post.
  - intros tags tag banned pre post Htags Htag Hb Heq.
    apply Hdrop, Hfield. by exists tags, tag, banned, pre, post.
  - intros n Hn Hmin Hname.
    assert (passes key value
            = Ok (negb (is_banned_tag (get_tags value)))) as Hpass.
    { unfold passes. rewrite Hn, result_bind_Ok, Hname.
      destruct (Nat.ltb_spec n MIN_EMOTION_COUNT) as [Hlt|_]; [lia |].
      by destruct (is_banned_tag (get_tags value)). }
    rewrite Hpass, <- Hfield.
    destruct (is_banned_tag (get_tags value)); simpl; split; split;
      (done || (intros H; by destruct H)).
  - intros md F Hnd HF Hin.
    pose proof (Hout md F Hnd HF Hin) as Hfalse.
    split; [done |]. rewrite <- Hfield, Hfalse. done.
Qed.


(** ** Running the pipeline on its own output *)

Lemma filter_keys {V} (P : pystr → Prop) `{∀ k, Decision (P k)} (d : dict V) :
  filter P (dict_keys d) = dict_keys (filter (λ kv, P kv.1) d).
Proof.
  unfold dict_keys. induction d as [|[k v] d IH]; [done |].
  rewrite fmap_cons, !filter_cons. simpl.
  destruct (decide (P k)); by rewrite IH.
Qed.

Lemma filter_all {A} (P : A → Prop) `{∀ x, Decision (P x)} (l : list A) :
  Forall P l → filter P l = l.
Proof.
  induction 1 as [|x l Hx Hl IH]; [done |].
  by rewrite filter_cons_True, IH.
Qed.

Lemma in_sorted_order_perm d : in_sorted_order d ≡ₚ d.
Proof. apply (filter_app_complement (λ kv, marked kv.1)). Qed.

Lemma sorted_keys_in_sorted_order d :
  sorted_keys d = dict_keys (in_sorted_order d).
Proof.
  unfold sorted_keys, in_sorted_order. rewrite sorted_by_priority.
  rewrite (filter_keys marked), (filter_keys (λ k, ¬ marked k)).
  unfold dict_keys. by rewrite fmap_app.
Qed.

Section Rerun.
Variable lower : pystr → pystr.
Variable set_union_list : list pystr → list pystr → list pystr.

(** Keys of pairwise distinct canonical identities are stored one after the
    other, each with its record as it is. *)
Lemma merge_loop_fresh data (items : dict record) tm md :
  (∀ k v, (k, v) ∈ items → dict_get data k = Some v ∧ survives lower k) →
  NoDup (base_name <$> dict_keys items) →
  (∀ k, k ∈ dict_keys items → tm !! base_name k = None) →
  (∀ k, k ∈ dict_keys md → is_Some (tm !! base_name k)) →
  ∃ tm',
    merge_loop lower set_union_list data (dict_keys items) (tm, md)
    = Ok (tm', md ++ items).
Proof.
  revert tm md. induction items as [|[k v] items IH]; intros tm md Hd Hnd Hfresh Hmd.
  - exists tm. by rewrite app_nil_r.
  - change (dict_keys ((k, v) :: items)) with (k :: dict_keys items) in *.
    rewrite fmap_cons in Hnd. apply NoDup_cons in Hnd as [Hk Hnd].
    destruct (Hd k v (list_elem_of_here _ _)) as [Hget Hs].
    assert (tm !! base_name k = None) as Htm by apply Hfresh, list_elem_of_here.
    assert (k ∉ dict_keys md) as Hnew.
    { intros [x Hx]%Hmd. congruence. }
    rewrite merge_loop_cons. unfold merge_step, dict_item. rewrite Hget. simpl.
    unfold survives in Hs. rewrite Hs, Htm, dict_set_new by done.
    destruct (IH (<[base_name k := k]> tm) (md ++ [(k, v)])) as [tm' Hloop].
    + intros k' v' Hin. apply Hd. by apply list_elem_of_further.
    + done.
    + intros k' Hk'. rewrite lookup_insert_ne.
      * apply Hfresh. by apply list_elem_of_further.
      * intros Heq. apply Hk. rewrite Heq. by apply list_elem_of_fmap_2.
    + intros k'. unfold dict_keys. rewrite fmap_app, elem_of_app. simpl.
      intros [Hin | ->%list_elem_of_singleton].
      * destruct (decide (base_name k = base_name k')) as [->|Hne].
        -- by rewrite lookup_insert_eq.
        -- rewrite lookup_insert_ne by done. by apply Hmd.
      * by rewrite lookup_insert_eq.
    + exists tm'. rewrite result_bind_Ok, Hloop. by rewrite <- app_assoc.
Qed.

(** A dictionary of surviving keys of pairwise distinct canonical
    identities whose records all pass the three criteria goes through the
    pipeline unchanged, but for the order of the sort. *)
Lemma rerun_fixed out :
  NoDup (dict_keys out) →
  (∀ k1 k2,
     k1 ∈ dict_keys out → k2 ∈ dict_keys out →
     base_name k1 = base_name k2 → k1 = k2) →
  (∀ k, k ∈ dict_keys out → survives lower k) →
  Forall retained out →
  strict_filter_json lower set_union_list out = Ok (in_sorted_order out).
Proof.
  intros Hnd Hinj Hs Hret.
  pose proof (in_sorted_order_perm out) as Hperm.
  assert (NoDup (dict_keys (in_sorted_order out))) as Hnd'.
  { unfold dict_keys in *. by rewrite Hperm. }
  destruct (merge_loop_fresh out (in_sorted_order out) ∅ []) as [tm Hloop].
  - intros k v Hin. rewrite Hperm in Hin. split.
    + by apply dict_get_elem.
    + apply Hs. by apply (list_elem_of_fmap_2 fst) in Hin.
  - apply NoDup_fmap_2_strong; [| done].
    intros k1 k2 H1 H2. unfold dict_keys in *. rewrite Hperm in H1, H2.
    by apply Hinj.
  - intros k _. apply lookup_empty.
  - intros k Hk. by apply elem_of_nil in Hk.
  - unfold strict_filter_json, merge_stage.
    rewrite sorted_keys_in_sorted_order, Hloop, !result_bind_Ok. simpl.
    assert (Forall retained (in_sorted_order out)) as Hret'.
    { by rewrite Hperm. }
    rewrite filter_stage_ok; [by rewrite filter_all | done |].
    eapply Forall_impl; [exact Hret' |].
    intros [k v] Hkv. apply passes_measurable. by exists true.
Qed.
End Rerun.

(** C8: when the pipeline returns a mapping, the pipeline applied to that
    mapping returns too, and returns the same items (same keys, same
    records, the tag lists included), the marked keys before the others:
    the same mapping.  The two runs may list a set in different orders
    ([set_union_list1], [set_union_list2]). *)
Theorem pipeline_idempotent
    (lower : pystr → pystr)
    (set_union_list1 set_union_list2 : list pystr → list pystr → list pystr)
    (data out : dict record) :
  strict_filter_json lower set_union_list1 data = Ok out →
  ∃ out',
    strict_filter_json lower set_union_list2 out = Ok out' ∧
    out' ≡ₚ out ∧
    ∀ k, dict_get out' k = dict_get out k.
Proof.
  unfold strict_filter_json at 1.
  destruct (merge_stage_inv lower set_union_list1 data) as (tm & md & Hrun & Hinv).
  rewrite Hrun, result_bind_Ok.
  pose proof (inv_nodup _ _ _ _ _ Hinv) as Hnd.
  intros [_ ->]%filter_stage_spec; [| done].
  assert (filter retained md `sublist_of` md) as Hsub by apply sublist_filter.
  assert (∀ k, k ∈ dict_keys (filter retained md) → k ∈ dict_keys md) as Hkeys.
  { intros k Hk. unfold dict_keys in *. eapply elem_of_sublist; [done |].
    by apply fmap_sublist. }
  assert (NoDup (dict_keys (filter retained md))) as Hnd'.
  { unfold dict_keys in *. eapply sublist_NoDup; [done |]. by apply fmap_sublist. }
  exists (in_sorted_order (filter retained md)). split_and!.
  - apply rerun_fixed; [done | | |].
    + intros k1 k2 H1%Hkeys H2%Hkeys.
      by apply (merge_inv_distinct _ _ _ _ _ _ _ Hinv).
    + intros k [r Hr]%Hkeys%dict_get_is_Some.
      by destruct (inv_data _ _ _ _ _ Hinv _ _ Hr) as (_ & ? & _).
    + apply Forall_forall. by intros x [? _]%list_elem_of_filter.
  - apply in_sorted_order_perm.
  - intros k. apply dict_get_Permutation; [done |].
    symmetry. apply in_sorted_order_perm.
Qed.

(** C9: every key of the output is a key of the input, and its record is the
    input's record of that key but, possibly, for [tags]; the filter stage
    copies items of the merged mapping, in their order, and nothing else. *)
Theorem output_records_come_from_input
    (lower : pystr → pystr)
    (set_union_list : list pystr → list pystr → list pystr)
    (data final_data : dict record) :
  strict_filter_json lower set_union_list data = Ok final_data →
  (∀ k, k ∈ dict_keys final_data → k ∈ dict_keys data) ∧
  (∀ k r,
     dict_get final_data k = Some r →
     ∃ r0, dict_get data k = Some r0 ∧ same_but_tags r r0) ∧
  (∀ merged_data final_data',
     NoDup (dict_keys merged_data) →
     filter_stage merged_data = Ok final_data' →
     final_data' `sublist_of` merged_data ∧
     ∀ k r,
       dict_get final_data' k = Some r → dict_get merged_data k = Some r).
Proof.
  assert (∀ merged_data final_data',
            NoDup (dict_keys merged_data) →
            filter_stage merged_data = Ok final_data' →
            final_data' `sublist_of` merged_data ∧
            ∀ k r,
              dict_get final_data' k = Some r →
              dict_get merged_data k = Some r) as Hfilter.
  { intros md F Hnd [_ ->]%filter_stage_spec; [| done].
    split; [apply sublist_filter |].
    intros k r [_ Hin]%dict_get_Some_elem%list_elem_of_filter.
    by apply dict_get_elem. }
  unfold strict_filter_json.
  destruct (merge_stage_inv lower set_union_list data) as (tm & md & Hrun & Hinv).
  rewrite Hrun, result_bind_Ok. intros Hf.
  destruct (Hfilter md final_data (inv_nodup _ _ _ _ _ Hinv) Hf) as [_ Hget].
  assert (∀ k r,
            dict_get final_data k = Some r →
            ∃ r0, dict_get data k = Some r0 ∧ same_but_tags r r0) as Hrec.
  { intros k r Hr%Hget.
    by destruct (inv_data _ _ _ _ _ Hinv _ _ Hr) as (_ & _ & ?). }
  split_and!; [| done | done].
  intros k [r Hr]%dict_get_is_Some.
  destruct (Hrec k r Hr) as (r0 & Hr0 & _). apply dict_get_is_Some. eauto.
Qed.

(** ** The marker inside a key *)

(** C10: [base_name] and [name_part] delete the marker wherever it stands,
    [priority] looks at the end of the key only.  So ["A_ZHB"] and ["AB"],
    neither of which is sorted as a marked key, have one canonical identity
    and are merged into one record. *)
Theorem marker_deleted_anywhere_but_tested_at_end :
  (∀ a b, base_name (a ++ ZH ++ b) = base_name a ++ base_name b) ∧
  (∀ pre a b,
     HYPHEN ∉ a → HYPHEN ∉ b →
     name_part (pre ++ HYPHEN :: a ++ ZH ++ b) = base_name a ++ base_name b) ∧
  (∀ k, priority k = 1 ↔ ∃ pre, k = pre ++ ZH) ∧
  (∀ k, priority k = 2 ↔ ¬ ∃ pre, k = pre ++ ZH) ∧
  priority [65; 95; 90; 72; 66]%N = 2 ∧
  priority [65; 66]%N = 2 ∧
  base_name [65; 95; 90; 72; 66]%N = [65; 66]%N ∧
  base_name [65; 66]%N = [65; 66]%N ∧
  merge_stage ascii_lower union_in_order
    [ ([65; 95; 90; 72; 66]%N, mkRecord (Some [[120]%N]) None []);
      ([65; 66]%N, mkRecord (Some [[121]%N]) None []) ]
  = Ok [ ([65; 95; 90; 72; 66]%N,
          mkRecord (Some [[120]%N; [121]%N]) None []) ].
Proof.
  split_and!; [| | | | by vm_compute..].
  - apply base_name_app_ZH.
  - intros pre a b Ha Hb. unfold name_part.
    rewrite PyStrFacts.last_split_app; [apply base_name_app_ZH |].
    rewrite !not_elem_of_app. split_and!; [done | | done].
    unfold ZH, HYPHEN. by intros [[=] | [[=] | [[=] | []%elem_of_nil]%elem_of_cons]%elem_of_cons]%elem_of_cons.
  - intros k. by rewrite priority_marked, PyStrFacts.endswith_spec.
  - intros k. rewrite priority_unmarked, <- PyStrFacts.endswith_spec.
    by destruct (PyStr.endswith k ZH).
Qed.

(** ** Runs on concrete inputs *)

Lemma union_in_order_spec a b t :
  t ∈ union_in_order a b ↔ t ∈ a ∨ t ∈ b.
Proof. unfold union_in_order. by rewrite elem_of_remove_dups, elem_of_app. Qed.

Example example_run :
  strict_filter_json ascii_lower union_in_order example_data
  = Ok example_output.
Proof. by vm_compute. Qed.

(** C2, as stated, fails.  In [two_marked_data] the marked key ["A_ZH"] and
    the unmarked key ["A"] share the canonical identity ["A"], both survive
    the language filter, and the merged record is stored under
    ["A_ZH_ZH"], with that record's fields.  In [excluded_data] the marked
    key ["english_ZH"] and the unmarked key ["english"] share a canonical
    identity, and nothing is stored. *)
Lemma marked_record_precedence_counterexample :
  (dict_get two_marked_data key_A_ZH = Some (sample [] 6 [50]%N) ∧
   dict_get two_marked_data key_A = Some (sample [] 0 [51]%N) ∧
   priority key_A_ZH = 1 ∧
   priority key_A = 2 ∧
   base_name key_A_ZH = base_name key_A ∧
   is_excluded ascii_lower key_A_ZH = false ∧
   is_excluded ascii_lower key_A = false ∧
   merge_stage ascii_lower union_in_order two_marked_data
   = Ok [(key_A_ZH_ZH, sample [] 6 [49]%N)] ∧
   dict_get [(key_A_ZH_ZH, sample [] 6 [49]%N)] key_A_ZH = None ∧
   r_others (sample [] 6 [49]%N) ≠ r_others (sample [] 6 [50]%N)) ∧
  (dict_get excluded_data key_english_ZH = Some (sample [] 6 [50]%N) ∧
   dict_get excluded_data key_english = Some (sample [] 0 [51]%N) ∧
   priority key_english_ZH = 1 ∧
   priority key_english = 2 ∧
   base_name key_english_ZH = base_name key_english ∧
   merge_stage ascii_lower union_in_order excluded_data = Ok []).
Proof. split; split_and!; by vm_compute. Qed.

Lemma marked_record_precedence_witness :
  dict_keys precedence_data = [key_B] ++ key_A_ZH :: [key_A] ∧
  dict_get precedence_data key_A_ZH = Some (sample [[120]%N] 6 [109]%N) ∧
  marked key_A_ZH ∧
  survives ascii_lower key_A_ZH ∧
  (∀ k,
     k ∈ [key_B] → marked k → survives ascii_lower k →
     base_name k ≠ base_name key_A_ZH) ∧
  ∃ merged_data r,
    merge_stage ascii_lower union_in_order precedence_data = Ok merged_data ∧
    dict_get merged_data key_A_ZH = Some r ∧
    same_but_tags r (sample [[120]%N] 6 [109]%N) ∧
    ∀ ku,
      ku ≠ key_A_ZH → base_name ku = base_name key_A_ZH →
      ku ∉ dict_keys merged_data.
Proof.
  assert (∀ k,
            k ∈ [key_B] → marked k → survives ascii_lower k →
            base_name k ≠ base_name key_A_ZH) as Hfirst.
  { intros k ->%list_elem_of_singleton _ _. by vm_compute. }
  split_and!; [reflexivity | reflexivity | reflexivity | reflexivity | exact Hfirst |].
  exact (marked_record_precedence ascii_lower union_in_order precedence_data
           [key_B] [key_A] key_A_ZH (sample [[120]%N] 6 [109]%N)
           eq_refl eq_refl eq_refl eq_refl Hfirst).
Defined.

Lemma merged_tags_are_the_union_witness :
  (∀ a b t, t ∈ union_in_order a b ↔ t ∈ a ∨ t ∈ b) ∧
  dict_get union_data key_A_ZH = Some (sample [[97]%N; [98]%N] 6 [109]%N) ∧
  dict_get union_data key_A = Some (sample [[98]%N; [99]%N] 6 [117]%N) ∧
  survives ascii_lower key_A_ZH ∧
  survives ascii_lower key_A ∧
  base_name key_A_ZH = base_name key_A ∧
  merge_stage ascii_lower union_in_order union_data
  = Ok [(key_A_ZH, sample [[97]%N; [98]%N; [99]%N] 6 [109]%N)] ∧
  ∃ merged_data k r,
    merge_stage ascii_lower union_in_order union_data = Ok merged_data ∧
    dict_get merged_data k = Some r ∧
    base_name k = base_name key_A_ZH ∧
    (∀ t,
       t ∈ default [] (r_tags (sample [[97]%N; [98]%N] 6 [109]%N)) ∨
       t ∈ default [] (r_tags (sample [[98]%N; [99]%N] 6 [117]%N)) →
       t ∈ default [] (r_tags r)) ∧
    ((∀ k',
        k' ∈ dict_keys union_data → survives ascii_lower k' →
        base_name k' = base_name key_A_ZH → k' = key_A_ZH ∨ k' = key_A) →
     ∀ t,
       t ∈ default [] (r_tags r) ↔
       t ∈ default [] (r_tags (sample [[97]%N; [98]%N] 6 [109]%N)) ∨
       t ∈ default [] (r_tags (sample [[98]%N; [99]%N] 6 [117]%N))).
Proof.
  split_and!;
    [exact union_in_order_spec | reflexivity | reflexivity | reflexivity
    | reflexivity | reflexivity | reflexivity |].
  exact (proj2 (merged_tags_are_the_union ascii_lower union_in_order union_data
                  key_A_ZH key_A _ _ union_in_order_spec
                  eq_refl eq_refl eq_refl eq_refl eq_refl)).
Defined.

(** C3, as stated, fails.  In [three_variants_data] the records of ["A_ZH"]
    and ["A"] share the canonical identity ["A"] and have the tags [{a}] and
    [{b}], but the merged record of that identity (stored under
    ["A_ZH_ZH"]) has the tags [{c, a, b}]: the tag ["c"] is in neither of
    the two.  In [excluded_tags_data] the two records share a canonical
    identity and there is no merged record at all. *)
Lemma merged_tags_are_the_union_counterexample :
  (dict_get three_variants_data key_A_ZH = Some (sample [[97]%N] 6 [50]%N) ∧
   dict_get three_variants_data key_A = Some (sample [[98]%N] 6 [51]%N) ∧
   base_name key_A_ZH = base_name key_A ∧
   merge_stage ascii_lower union_in_order three_variants_data
   = Ok [(key_A_ZH_ZH, sample [[99]%N; [97]%N; [98]%N] 6 [49]%N)] ∧
   base_name key_A_ZH_ZH = base_name key_A ∧
   [99]%N ∈ default [] (r_tags (sample [[99]%N; [97]%N; [98]%N] 6 [49]%N)) ∧
   ([99]%N ∉ default [] (r_tags (sample [[97]%N] 6 [50]%N))) ∧
   ([99]%N ∉ default [] (r_tags (sample [[98]%N] 6 [51]%N)))) ∧
  (dict_get excluded_tags_data key_english_ZH
   = Some (sample [[97]%N; [98]%N] 6 [50]%N) ∧
   dict_get excluded_tags_data key_english
   = Some (sample [[98]%N; [99]%N] 6 [51]%N) ∧
   base_name key_english_ZH = base_name key_english ∧
   merge_stage ascii_lower union_in_order excluded_tags_data = Ok []).
Proof.
  split; split_and!; try (by vm_compute).
  - apply list_elem_of_here.
  - apply (bool_decide_unpack _). by vm_compute.
  - apply (bool_decide_unpack _). by vm_compute.
Qed.

(** An absent [tags] field on one side: the other side's tags are kept. *)
Example merge_with_absent_tags :
  merge_stage ascii_lower union_in_order
    [ (key_A_ZH, mkRecord None None []);
      (key_A, mkRecord (Some [[98]%N; [99]%N]) None []) ]
  = Ok [ (key_A_ZH, mkRecord (Some [[98]%N; [99]%N]) None []) ].
Proof. by vm_compute. Qed.

Lemma emotion_threshold_witness :
  NoDup (dict_keys example_output) ∧
  (key_A_ZH, sample [[120]%N; [121]%N] 6 [109]%N) ∈ example_output ∧
  passes key_A_ZH (sample [[120]%N; [121]%N] 6 [109]%N)
  = Ok (bool_decide (MIN_EMOTION_COUNT ≤ length (replicate 6 JNull))) ∧
  passes key_A_ZH (sample [[120]%N; [121]%N] 6 [109]%N) = Ok true ∧
  passes key_A_ZH (sample [[120]%N; [121]%N] 5 [109]%N) = Ok false.
Proof.
  assert (NoDup (dict_keys example_output)) as Hnd.
  { apply NoDup_singleton. }
  assert ((key_A_ZH, sample [[120]%N; [121]%N] 6 [109]%N) ∈ example_output)
    as Hin.
  { apply list_elem_of_here. }
  pose proof (emotion_threshold example_output key_A_ZH
                (sample [[120]%N; [121]%N] 6 [109]%N) (replicate 6 JNull)
                Hnd Hin eq_refl eq_refl eq_refl) as (Hp & _ & _ & Hsix & _).
  pose proof (emotion_threshold
                [(key_A_ZH, sample [[120]%N; [121]%N] 5 [109]%N)] key_A_ZH
                (sample [[120]%N; [121]%N] 5 [109]%N) (replicate 5 JNull)
                (NoDup_singleton _) (list_elem_of_here _ _)
                eq_refl eq_refl eq_refl) as (_ & _ & _ & _ & Hfive).
  split_and!; [exact Hnd | exact Hin | exact Hp | exact (Hsix eq_refl)
              | exact (Hfive eq_refl)].
Defined.

Lemma pipeline_idempotent_witness :
  strict_filter_json ascii_lower union_in_order example_data
  = Ok example_output ∧
  ∃ out',
    strict_filter_json ascii_lower union_in_order example_output = Ok out' ∧
    out' ≡ₚ example_output ∧
    ∀ k, dict_get out' k = dict_get example_output k.
Proof.
  split; [by vm_compute |].
  apply (pipeline_idempotent ascii_lower union_in_order union_in_order
           example_data example_output).
  by vm_compute.
Defined.

Lemma output_records_come_from_input_witness :
  strict_filter_json ascii_lower union_in_order example_data
  = Ok example_output ∧
  (∀ k, k ∈ dict_keys example_output → k ∈ dict_keys example_data) ∧
  (∀ k r,
     dict_get example_output k = Some r →
     ∃ r0, dict_get example_data k = Some r0 ∧ same_but_tags r r0).
Proof.
  assert (strict_filter_json ascii_lower union_in_order example_data
          = Ok example_output) as Hrun by by vm_compute.
  pose proof (output_records_come_from_input ascii_lower union_in_order
                example_data example_output Hrun) as (Hkeys & Hrec & _).
  split_and!; [exact Hrun | exact Hkeys | exact Hrec].
Defined.

(** * More of [strict_filter_json] *)

(** ** The order and the number of the items *)

Lemma dict_keys_set_app {V} (d : dict V) k v :
  dict_keys (dict_set d k v) =
  dict_keys d ++ (if decide (k ∈ dict_keys d) then [] else [k]).
Proof.
  destruct (decide (k ∈ dict_keys d)) as [Hin|Hnin].
  - by rewrite dict_keys_set_old, app_nil_r.
  - rewrite dict_set_new by done. unfold dict_keys. by rewrite fmap_app.
Qed.

Lemma merge_step_keys_app lower set_union_list data tm md key tm' md' :
  merge_step lower set_union_list data (tm, md) key = Ok (tm', md') →
  ∃ new, dict_keys md' = dict_keys md ++ new ∧ new `sublist_of` [key].
Proof.
  unfold merge_step, dict_item.
  destruct (dict_get data key) as [value|]; simpl; [| done].
  destruct (is_excluded lower key).
  { intros [= <- <-]. exists []. rewrite app_nil_r. split; [done |].
    apply sublist_nil_l. }
  destruct (tm !! base_name key) as [existing_key|].
  - destruct (dict_get md existing_key) as [existing_data|] eqn:Hed;
      simpl; [| done].
    intros [= <- <-]. exists []. rewrite app_nil_r. split; [| apply sublist_nil_l].
    apply dict_keys_set_old. apply dict_get_is_Some. eauto.
  - intros [= <- <-]. rewrite dict_keys_set_app. eexists. split; [done |].
    case_decide; [apply sublist_nil_l | done].
Qed.

Lemma merge_loop_keys_app lower set_union_list data keys tm md tm' md' :
  merge_loop lower set_union_list data keys (tm, md) = Ok (tm', md') →
  ∃ new, dict_keys md' = dict_keys md ++ new ∧ new `sublist_of` keys.
Proof.
  revert tm md. induction keys as [|key keys IH]; intros tm md.
  - intros [= <- <-]. exists []. by rewrite app_nil_r.
  - rewrite merge_loop_cons.
    destruct (merge_step lower set_union_list data (tm, md) key)
      as [[tm1 md1]|] eqn:Hstep; [| done].
    rewrite result_bind_Ok. intros (new2 & Hk2 & Hs2)%IH.
    apply merge_step_keys_app in Hstep as (new1 & Hk1 & Hs1).
    exists (new1 ++ new2). split.
    + by rewrite Hk2, Hk1, <- app_assoc.
    + change (key :: keys) with ([key] ++ keys). by apply sublist_app.
Qed.

Lemma merge_stage_keys_sublist lower set_union_list data merged_data :
  merge_stage lower set_union_list data = Ok merged_data →
  dict_keys merged_data `sublist_of` sorted_keys data.
Proof.
  unfold merge_stage.
  destruct (merge_loop lower set_union_list data (sorted_keys data) (∅, []))
    as [[tm md]|] eqn:Hloop; [| done].
  rewrite result_bind_Ok. intros [= <-].
  by apply merge_loop_keys_app in Hloop as (new & -> & Hs).
Qed.

Lemma sorted_keys_length data : length (sorted_keys data) = length data.
Proof.
  rewrite sorted_keys_in_sorted_order. unfold dict_keys.
  by rewrite length_fmap, (in_sorted_order_perm data).
Qed.

(** The keys of the output are in the order of the sort of line 44, which is
    the order in which [json.dump] writes them: the keys that end with the
    marker, in the order of the input, then the others, in the order of the
    input. *)
Theorem output_keeps_sorted_input_order
    (lower : pystr → pystr)
    (set_union_list : list pystr → list pystr → list pystr)
    (data final_data : dict record) :
  strict_filter_json lower set_union_list data = Ok final_data →
  dict_keys final_data `sublist_of`
    filter marked (dict_keys data) ++ filter (λ k, ¬ marked k) (dict_keys data).
Proof.
  unfold strict_filter_json.
  destruct (merge_stage_inv lower set_union_list data) as (tm & md & Hrun & Hinv).
  rewrite Hrun, result_bind_Ok.
  intros [_ ->]%filter_stage_spec; [| apply Hinv].
  rewrite <- sorted_by_priority. fold (sorted_keys data).
  transitivity (dict_keys md).
  - unfold dict_keys. apply fmap_sublist, sublist_filter.
  - by eapply merge_stage_keys_sublist.
Qed.

(** The three numbers of the summary (lines 13, 72 and 126-131): the merge
    stage and the filter stage only take items away, so the number printed
    as removed is not negative. *)
Theorem counts_only_go_down
    (lower : pystr → pystr)
    (set_union_list : list pystr → list pystr → list pystr)
    (data final_data : dict record) :
  strict_filter_json lower set_union_list data = Ok final_data →
  ∃ merged_data,
    merge_stage lower set_union_list data = Ok merged_data ∧
    length final_data ≤ length merged_data ∧
    length merged_data ≤ length data ∧
    (0 ≤ removed_count data final_data)%Z.
Proof.
  unfold strict_filter_json.
  destruct (merge_stage_inv lower set_union_list data) as (tm & md & Hrun & Hinv).
  rewrite Hrun, result_bind_Ok.
  intros [_ ->]%filter_stage_spec; [| apply Hinv].
  assert (length (filter retained md) ≤ length md) as H1.
  { apply sublist_length, sublist_filter. }
  assert (length md ≤ length data) as H2.
  { rewrite <- (sorted_keys_length data).
    replace (length md) with (length (dict_keys md))
      by (unfold dict_keys; apply length_fmap).
    by eapply sublist_length, merge_stage_keys_sublist. }
  exists md. split_and!; [done | done | done |].
  unfold removed_count. lia.
Qed.

(** ** When the run raises *)

Lemma passes_raises key value e :
  passes key value = Raise e → e = TypeError ∧ ¬ measurable (key, value).
Proof.
  unfold passes, measurable. simpl.
  destruct (py_len (emotions_of value)) as [n|e'] eqn:Hlen.
  - rewrite result_bind_Ok. by repeat case_match.
  - intros [= <-]. split; [| by intros [n Hn]].
    unfold py_len in Hlen. by repeat case_match; simplify_eq.
Qed.

Lemma filter_loop_raises items final_data :
  ¬ Forall measurable items →
  filter_loop items final_data = Raise TypeError.
Proof.
  revert final_data. induction items as [|[k v] items IH]; intros final Hnot.
  - destruct Hnot. constructor.
  - rewrite filter_loop_cons. unfold filter_step.
    destruct (passes k v) as [b|e] eqn:Hp.
    + assert (¬ Forall measurable items) as Hrest.
      { intros Hall. apply Hnot. constructor; [| done].
        apply passes_measurable. eauto. }
      rewrite result_bind_Ok. destruct b; rewrite result_bind_Ok; by apply IH.
    + by apply passes_raises in Hp as [-> _].
Qed.

(** On an input of the shape of [record] (every value an object whose
    [tags], when present, is an array of strings; [emotion] of any shape),
    the run raises no [KeyError] (the lookups of lines 49 and 62 find their
    keys), and it raises [TypeError] exactly when [len] cannot be taken on
    the [emotion] of a record that the merge stage has stored; the stored
    records are records of surviving input keys with the input's [emotion].
    A record that the language filter excludes, or that is merged into
    the record of another key, is never measured. *)
Theorem run_raises_only_for_stored_emotions
    (lower : pystr → pystr)
    (set_union_list : list pystr → list pystr → list pystr)
    (data : dict record) :
  strict_filter_json lower set_union_list data ≠ Raise KeyError ∧
  ∃ merged_data,
    merge_stage lower set_union_list data = Ok merged_data ∧
    (Forall measurable merged_data →
     strict_filter_json lower set_union_list data
     = Ok (filter retained merged_data)) ∧
    (¬ Forall measurable merged_data →
     strict_filter_json lower set_union_list data = Raise TypeError) ∧
    (∀ k r,
       (k, r) ∈ merged_data →
       survives lower k ∧
       ∃ r0, dict_get data k = Some r0 ∧ r_emotion r = r_emotion r0).
Proof.
  destruct (merge_stage_inv lower set_union_list data) as (tm & md & Hrun & Hinv).
  pose proof (inv_nodup _ _ _ _ _ Hinv) as Hnd.
  assert (Forall measurable md →
          strict_filter_json lower set_union_list data
          = Ok (filter retained md)) as Hok.
  { intros Hall. unfold strict_filter_json.
    rewrite Hrun, result_bind_Ok. by apply filter_stage_ok. }
  assert (¬ Forall measurable md →
          strict_filter_json lower set_union_list data = Raise TypeError)
    as Hraise.
  { intros Hnot. unfold strict_filter_json.
    rewrite Hrun, result_bind_Ok. by apply filter_loop_raises. }
  split.
  - destruct (decide (Forall measurable md)) as [Hall|Hnot].
    + by rewrite (Hok Hall).
    + by rewrite (Hraise Hnot).
  - exists md. split_and!; [done | done | done |].
    intros k r Hin. apply (dict_get_elem _ _ _ Hnd) in Hin.
    destruct (inv_data _ _ _ _ _ Hinv _ _ Hin) as (_ & Hs & r0 & Hr0 & He & _).
    split; [done |]. by exists r0.
Qed.

(** ** What every record of the output satisfies *)

Lemma passes_true key value :
  passes key value = Ok true ↔
  ∃ n,
    py_len (emotions_of value) = Ok n ∧ MIN_EMOTION_COUNT ≤ n ∧
    is_banned_tag (get_tags value) = false ∧ is_banned_name key = false.
Proof.
  unfold passes. destruct (py_len (emotions_of value)) as [n|e].
  - rewrite result_bind_Ok.
    destruct (Nat.ltb_spec n MIN_EMOTION_COUNT) as [Hlt|Hle].
    + split; [done |]. intros (n' & [= <-] & ? & _). lia.
    + destruct (is_banned_tag (get_tags value)).
      * split; [done |]. by intros (n' & _ & _ & ? & _).
      * destruct (is_banned_name key).
        -- split; [done |]. by intros (n' & _ & _ & _ & ?).
        -- split; [| done]. intros _. by exists n.
  - split; [done |]. by intros (n' & ? & _).
Qed.

Lemma survives_spec lower key :
  survives lower key ↔
  ¬ ∃ marker pre post,
      marker ∈ LANGUAGE_MARKERS ∧ lower key = pre ++ marker ++ post.
Proof.
  unfold survives, is_excluded. rewrite <- not_true_iff_false.
  apply not_iff_compat. rewrite existsb_exists. split.
  - intros (m & Hin%list_elem_of_In & (pre & post & Hc)%PyStrFacts.contains_spec).
    by exists m, pre, post.
  - intros (m & pre & post & Hin%list_elem_of_In & Hc).
    exists m. split; [done |]. apply PyStrFacts.contains_spec. by exists pre, post.
Qed.

(** Every record of the output passes every test of the program: the
    lower-cased key contains none of the language markers, the length of
    [emotions] can be taken and is at least [MIN_EMOTION_COUNT], no tag of
    the record as it is written (with the tags merged into it) contains a
    banned entry, and the name part of the key is not a banned name. *)
Theorem output_records_pass_every_test
    (lower : pystr → pystr)
    (set_union_list : list pystr → list pystr → list pystr)
    (data final_data : dict record) (key : pystr) (value : record) :
  strict_filter_json lower set_union_list data = Ok final_data →
  dict_get final_data key = Some value →
  (¬ ∃ marker pre post,
       marker ∈ LANGUAGE_MARKERS ∧ lower key = pre ++ marker ++ post) ∧
  (∃ n, py_len (emotions_of value) = Ok n ∧ MIN_EMOTION_COUNT ≤ n) ∧
  (¬ ∃ tag banned pre post,
       tag ∈ get_tags value ∧ banned ∈ BANNED_TAGS ∧
       tag = pre ++ banned ++ post) ∧
  name_part key ∉ BANNED_NAMES.
Proof.
  unfold strict_filter_json.
  destruct (merge_stage_inv lower set_union_list data) as (tm & md & Hrun & Hinv).
  rewrite Hrun, result_bind_Ok.
  intros [_ ->]%filter_stage_spec; [| apply Hinv].
  intros [Hret Hin]%dict_get_Some_elem%list_elem_of_filter.
  apply (dict_get_elem _ _ _ (inv_nodup _ _ _ _ _ Hinv)) in Hin.
  destruct (inv_data _ _ _ _ _ Hinv _ _ Hin) as (_ & Hs & _).
  unfold retained in Hret. simpl in Hret.
  apply passes_true in Hret as (n & Hlen & Hn & Htag & Hname).
  split_and!.
  - by apply survives_spec.
  - by exists n.
  - intros (tag & banned & pre & post & Ht & Hb & ->).
    assert (is_banned_tag (get_tags value) = true); [| congruence].
    apply is_banned_tag_spec. exists (pre ++ banned ++ post), banned.
    split_and!; [done | done |]. apply PyStrFacts.contains_spec. by exists pre, post.
  - intros Hbad%name_hits_spec. unfold is_banned_name in Hname. congruence.
Qed.

(** ** The keys that the language filter excludes *)

Lemma dict_get_filter_key {V} (P : pystr → Prop) `{∀ k, Decision (P k)}
    (d : dict V) k :
  P k → dict_get (filter (λ kv, P kv.1) d) k = dict_get d k.
Proof.
  intros HP. induction d as [|[k' v'] d IH]; [done |].
  rewrite filter_cons. simpl. destruct (decide (P k')) as [HP'|HP']; simpl.
  - by rewrite IH.
  - rewrite decide_False; [done |]. by intros ->.
Qed.

Lemma filter_filter_comm {A} (P Q : A → Prop)
    `{∀ x, Decision (P x)} `{∀ x, Decision (Q x)} (l : list A) :
  filter P (filter Q l) = filter Q (filter P l).
Proof.
  rewrite !list_filter_filter. apply list_filter_iff. intros x. tauto.
Qed.

Lemma sorted_keys_filter (P : pystr → Prop) `{∀ k, Decision (P k)}
    (data : dict record) :
  sorted_keys (filter (λ kv, P kv.1) data) = filter P (sorted_keys data).
Proof.
  unfold sorted_keys. rewrite !sorted_by_priority, <- (filter_keys P).
  rewrite filter_app.
  by rewrite (filter_filter_comm P marked),
             (filter_filter_comm P (λ k, ¬ marked k)).
Qed.

Lemma merge_step_data lower set_union_list data data' st key :
  dict_get data key = dict_get data' key →
  merge_step lower set_union_list data st key
  = merge_step lower set_union_list data' st key.
Proof. intros Heq. unfold merge_step, dict_item. by rewrite Heq. Qed.

Lemma merge_step_excluded lower set_union_list data st key :
  key ∈ dict_keys data → ¬ survives lower key →
  merge_step lower set_union_list data st key = Ok st.
Proof.
  intros [value Hv]%dict_get_is_Some Hex. destruct st as [tm md].
  unfold merge_step, dict_item. rewrite Hv, result_bind_Ok.
  unfold survives in Hex. by destruct (is_excluded lower key).
Qed.

Lemma merge_loop_skips_excluded lower set_union_list data keys st :
  (∀ k, k ∈ keys → k ∈ dict_keys data) →
  merge_loop lower set_union_list data keys st
  = merge_loop lower set_union_list
      (filter (λ kv, survives lower kv.1) data)
      (filter (survives lower) keys) st.
Proof.
  revert st. induction keys as [|key keys IH]; intros st Hin; [done |].
  assert (∀ k, k ∈ keys → k ∈ dict_keys data) as Hin'.
  { intros k Hk. by apply Hin, list_elem_of_further. }
  rewrite filter_cons. destruct (decide (survives lower key)) as [Hs|Hex].
  - rewrite !merge_loop_cons.
    rewrite (merge_step_data _ _ data
               (filter (λ kv, survives lower kv.1) data))
      by by rewrite (dict_get_filter_key (survives lower)).
    destruct (merge_step lower set_union_list
                (filter (λ kv, survives lower kv.1) data) st key); [| done].
    rewrite !result_bind_Ok. by apply IH.
  - rewrite merge_loop_cons, merge_step_excluded, result_bind_Ok;
      [by apply IH | apply Hin, list_elem_of_here | done].
Qed.

(** The language filter comes before everything else: the records of the
    excluded keys give nothing to the result, not even their tags.  The run
    on the input is the run on the input without its excluded keys. *)
Theorem excluded_keys_contribute_nothing
    (lower : pystr → pystr)
    (set_union_list : list pystr → list pystr → list pystr)
    (data : dict record) :
  merge_stage lower set_union_list data
  = merge_stage lower set_union_list
      (filter (λ kv, survives lower kv.1) data) ∧
  strict_filter_json lower set_union_list data
  = strict_filter_json lower set_union_list
      (filter (λ kv, survives lower kv.1) data).
Proof.
  assert (merge_stage lower set_union_list data
          = merge_stage lower set_union_list
              (filter (λ kv, survives lower kv.1) data)) as Hm.
  { unfold merge_stage.
    rewrite (sorted_keys_filter (survives lower)).
    rewrite <- merge_loop_skips_excluded; [done |].
    intros k. by rewrite sorted_keys_elem. }
  split; [done |]. unfold strict_filter_json. by rewrite Hm.
Qed.

(** ** A key without counterpart *)

Section Verbatim.
Variable lower : pystr → pystr.
Variable set_union_list : list pystr → list pystr → list pystr.

Lemma merge_step_verbatim data seen tm md key tm' md' :
  merge_inv lower data seen tm md →
  verbatim_inv lower data seen md →
  key ∉ seen →
  merge_step lower set_union_list data (tm, md) key = Ok (tm', md') →
  verbatim_inv lower data ({[key]} ∪ seen) md'.
Proof.
  intros [Hch Hst Hseen Hnd Hdata] Hverb Hnew.
  unfold merge_step, dict_item.
  destruct (dict_get data key) as [value|] eqn:Hvalue; simpl; [| done].
  destruct (is_excluded lower key) eqn:Hex.
  { intros [= <- <-] k r Hk Honly. apply (Hverb k r Hk).
    intros k' Hk'. apply Honly. set_solver. }
  destruct (tm !! base_name key) as [ek|] eqn:Htm.
  - destruct (Hch _ _ Htm) as [Hbase Hin].
    pose proof Hin as [ed Hed]%dict_get_is_Some. rewrite Hed. simpl.
    intros [= <- <-] k r. destruct (decide (ek = k)) as [<-|Hne].
    + intros _ Honly. exfalso. apply Hnew.
      destruct (Hdata _ _ Hed) as (Hek & _).
      rewrite (Honly key); [done | set_solver | done | done].
    + rewrite dict_get_set_ne by done. intros Hk Honly.
      apply (Hverb k r Hk). intros k' Hk'. apply Honly. set_solver.
  - intros [= <- <-] k r. destruct (decide (key = k)) as [<-|Hne].
    + rewrite dict_get_set_eq. by intros [= <-] _.
    + rewrite dict_get_set_ne by done. intros Hk Honly.
      apply (Hverb k r Hk). intros k' Hk'. apply Honly. set_solver.
Qed.

Lemma merge_loop_verbatim data keys seen tm md tm' md' :
  merge_inv lower data seen tm md →
  verbatim_inv lower data seen md →
  NoDup keys →
  (∀ k, k ∈ keys → k ∉ seen) →
  (∀ k, k ∈ keys → k ∈ dict_keys data) →
  merge_loop lower set_union_list data keys (tm, md) = Ok (tm', md') →
  verbatim_inv lower data (list_to_set keys ∪ seen) md'.
Proof.
  revert seen tm md.
  induction keys as [|key keys IH]; intros seen tm md Hinv Hverb Hnd Hnew Hin.
  - intros [= <- <-]. by replace (list_to_set [] ∪ seen) with seen by set_solver.
  - replace (list_to_set (key :: keys) ∪ seen)
      with (list_to_set keys ∪ ({[key]} ∪ seen)) by set_solver.
    apply NoDup_cons in Hnd as [Hkey Hnd].
    rewrite merge_loop_cons.
    destruct (merge_step_inv lower set_union_list data seen tm md key Hinv)
      as (tm1 & md1 & Hstep & Hinv1).
    { apply Hin, list_elem_of_here. }
    rewrite Hstep, result_bind_Ok. intros Hloop.
    eapply IH; [done | | done | | | done].
    + eapply merge_step_verbatim; [done | done | | done].
      apply Hnew, list_elem_of_here.
    + intros k Hk [->%elem_of_singleton|Hs]%elem_of_union; [done |].
      by apply (Hnew k (list_elem_of_further _ _ _ Hk)).
    + intros k Hk. by apply Hin, list_elem_of_further.
Qed.

Lemma sorted_keys_NoDup data :
  NoDup (dict_keys data) → NoDup (sorted_keys data).
Proof.
  intros Hnd. rewrite sorted_keys_in_sorted_order. unfold dict_keys in *.
  by rewrite (in_sorted_order_perm data).
Qed.
End Verbatim.

(** A surviving key whose canonical identity no other surviving key of the
    input has goes through the merge stage with its record as it is, tags
    and all, and is in the output, with that record, exactly when the
    record passes the three criteria. *)
Theorem lone_record_passes_through
    (lower : pystr → pystr)
    (set_union_list : list pystr → list pystr → list pystr)
    (data : dict record) (key : pystr) (value : record) :
  NoDup (dict_keys data) →
  dict_get data key = Some value →
  survives lower key →
  (∀ k',
     k' ∈ dict_keys data → survives lower k' →
     base_name k' = base_name key → k' = key) →
  ∃ merged_data,
    merge_stage lower set_union_list data = Ok merged_data ∧
    dict_get merged_data key = Some value ∧
    ∀ final_data,
      strict_filter_json lower set_union_list data = Ok final_data →
      dict_get final_data key
      = if decide (passes key value = Ok true) then Some value else None.
Proof.
  intros Hnd Hget Hs Honly.
  destruct (merge_stage_inv lower set_union_list data) as (tm & md & Hrun & Hinv).
  assert (verbatim_inv lower data (list_to_set (dict_keys data)) md) as Hverb.
  { revert Hrun. unfold merge_stage.
    destruct (merge_loop lower set_union_list data (sorted_keys data) (∅, []))
      as [[tm0 md0]|] eqn:Hloop; [| done].
    rewrite result_bind_Ok. intros [= ->].
    replace (list_to_set (dict_keys data))
      with (list_to_set (C:=gset pystr) (sorted_keys data) ∪ ∅).
    - eapply merge_loop_verbatim;
        [apply merge_inv_init | | by apply sorted_keys_NoDup | | | done].
      + by intros k r H.
      + intros k _. set_solver.
      + intros k. by rewrite sorted_keys_elem.
    - apply set_eq. intros k.
      rewrite elem_of_union, !elem_of_list_to_set, sorted_keys_elem. set_solver. }
  assert (dict_get md key = Some value) as Hstored.
  { destruct (proj2 (inv_seen _ _ _ _ _ Hinv (base_name key))) as [k Hk].
    { exists key. rewrite elem_of_list_to_set. split_and!; [| done | done].
      apply dict_get_is_Some. eauto. }
    destruct (inv_chosen _ _ _ _ _ Hinv _ _ Hk) as [Hb [r Hr]%dict_get_is_Some].
    destruct (inv_data _ _ _ _ _ Hinv _ _ Hr) as (Hin & Hsk & _).
    rewrite elem_of_list_to_set in Hin.
    assert (k = key) as -> by by apply Honly.
    assert (dict_get data key = Some r) as Hd.
    { apply (Hverb key r Hr). intros k'. rewrite elem_of_list_to_set.
      apply Honly. }
    congruence. }
  exists md. split_and!; [done | done |].
  intros final. unfold strict_filter_json. rewrite Hrun, result_bind_Ok.
  pose proof (inv_nodup _ _ _ _ _ Hinv) as Hndm.
  intros [_ ->]%filter_stage_spec; [| done].
  assert (NoDup (dict_keys (filter retained md))) as Hndf.
  { unfold dict_keys in *. eapply sublist_NoDup; [done |].
    apply fmap_sublist, sublist_filter. }
  destruct (decide (passes key value = Ok true)) as [Hp|Hp].
  - apply dict_get_elem; [done |]. apply list_elem_of_filter. split; [done |].
    by apply dict_get_Some_elem.
  - destruct (dict_get (filter retained md) key) as [r|] eqn:Hr; [| done].
    apply dict_get_Some_elem, list_elem_of_filter in Hr as [Hret Hin].
    apply (dict_get_elem _ _ _ Hndm) in Hin.
    rewrite Hstored in Hin. injection Hin as <-. by destruct Hp.
Qed.

(** ** All the variants give their tags *)

(** The tags of a record of the merged mapping are, as a set, the tags of
    all the surviving input records of its canonical identity, however
    many they are. *)
Theorem merged_tags_collect_all_variants
    (lower : pystr → pystr)
    (set_union_list : list pystr → list pystr → list pystr)
    (data merged_data : dict record) (k : pystr) (r : record) :
  (∀ a b t, t ∈ set_union_list a b ↔ t ∈ a ∨ t ∈ b) →
  merge_stage lower set_union_list data = Ok merged_data →
  dict_get merged_data k = Some r →
  ∀ t,
    t ∈ get_tags r ↔
    ∃ k' r',
      k' ∈ dict_keys data ∧ survives lower k' ∧
      base_name k' = base_name k ∧
      dict_get data k' = Some r' ∧ t ∈ get_tags r'.
Proof.
  intros Hunion Hrun Hr t.
  rewrite (merge_stage_tags lower set_union_list Hunion data merged_data Hrun
             k r Hr t).
  by setoid_rewrite elem_of_list_to_set.
Qed.

(** The tag blacklist is applied to the merged tags: when a surviving
    input record has a banned tag, no key of its canonical identity is in
    the output, whichever variant was stored. *)
Theorem banned_tag_of_a_variant_drops_the_identity
    (lower : pystr → pystr)
    (set_union_list : list pystr → list pystr → list pystr)
    (data final_data : dict record) (k2 : pystr) (r2 : record) :
  (∀ a b t, t ∈ set_union_list a b ↔ t ∈ a ∨ t ∈ b) →
  dict_get data k2 = Some r2 →
  survives lower k2 →
  is_banned_tag (get_tags r2) = true →
  strict_filter_json lower set_union_list data = Ok final_data →
  ∀ k, k ∈ dict_keys final_data → base_name k ≠ base_name k2.
Proof.
  intros Hunion H2 Hs2 Hban. unfold strict_filter_json.
  destruct (merge_stage_inv lower set_union_list data) as (tm & md & Hrun & Hinv).
  rewrite Hrun, result_bind_Ok.
  intros [_ ->]%filter_stage_spec; [| apply Hinv].
  intros k [r Hr]%dict_get_is_Some Hb.
  apply dict_get_Some_elem, list_elem_of_filter in Hr as [Hret Hin].
  apply (dict_get_elem _ _ _ (inv_nodup _ _ _ _ _ Hinv)) in Hin.
  unfold retained in Hret. simpl in Hret.
  apply passes_true in Hret as (n & _ & _ & Htag & _).
  assert (is_banned_tag (get_tags r) = true); [| congruence].
  apply is_banned_tag_spec in Hban as (tag & banned & Ht & Hbn & Hc).
  apply is_banned_tag_spec. exists tag, banned. split_and!; [| done | done].
  apply (merge_stage_tags lower set_union_list Hunion data md Hrun k r Hin tag).
  exists k2, r2. rewrite elem_of_list_to_set. split_and!; [| done | done | done | done].
  apply dict_get_is_Some. eauto.
Qed.

(** ** The order in which a set is listed *)

Lemma same_up_to_tag_order_refl r : same_up_to_tag_order r r.
Proof. by split. Qed.

Lemma dicts_agree_keys d1 d2 : dicts_agree d1 d2 → dict_keys d1 = dict_keys d2.
Proof.
  unfold dict_keys. induction 1 as [|[k1 r1] [k2 r2] d1 d2 [Hk _] _ IH]; [done |].
  rewrite !fmap_cons. simpl in Hk. by f_equal.
Qed.

Lemma dicts_agree_get d1 d2 k r1 :
  dicts_agree d1 d2 →
  dict_get d1 k = Some r1 →
  ∃ r2, dict_get d2 k = Some r2 ∧ same_up_to_tag_order r1 r2.
Proof.
  induction 1 as [|[k1 x1] [k2 x2] d1 d2 [Hk Hr] _ IH]; [done |].
  simpl in *. subst k2. case_decide.
  - intros [= <-]. by exists x2.
  - done.
Qed.

Lemma dicts_agree_set d1 d2 k v1 v2 :
  dicts_agree d1 d2 →
  same_up_to_tag_order v1 v2 →
  dicts_agree (dict_set d1 k v1) (dict_set d2 k v2).
Proof.
  intros Hd Hv. induction Hd as [|[k1 x1] [k2 x2] d1 d2 [Hk Hr] Hd IH]; simpl.
  - constructor; [by split | constructor].
  - simpl in *. subst k2. case_decide; (constructor; [by split | done]).
Qed.

Lemma is_banned_tag_ext tags1 tags2 :
  (∀ t, t ∈ tags1 ↔ t ∈ tags2) →
  is_banned_tag tags1 = is_banned_tag tags2.
Proof.
  intros Heq. apply eq_true_iff_eq. rewrite !is_banned_tag_spec.
  by setoid_rewrite Heq.
Qed.

Lemma passes_agree key r1 r2 :
  same_up_to_tag_order r1 r2 → passes key r1 = passes key r2.
Proof.
  intros [[He _] Ht]. unfold passes, emotions_of.
  by rewrite He, (is_banned_tag_ext _ _ Ht).
Qed.

Lemma filter_loop_agree items1 items2 final1 final2 out1 :
  dicts_agree items1 items2 →
  dicts_agree final1 final2 →
  filter_loop items1 final1 = Ok out1 →
  ∃ out2, filter_loop items2 final2 = Ok out2 ∧ dicts_agree out1 out2.
Proof.
  intros Hitems. revert final1 final2.
  induction Hitems as [|[k1 r1] [k2 r2] items1 items2 [Hk Hr] _ IH];
    intros final1 final2 Hfinal.
  - intros [= <-]. by exists final2.
  - simpl in Hk, Hr. subst k2. rewrite !filter_loop_cons. unfold filter_step.
    rewrite <- (passes_agree k1 r1 r2 Hr).
    destruct (passes k1 r1) as [[]|]; [| |done]; rewrite !result_bind_Ok.
    + apply IH. by apply dicts_agree_set.
    + by apply IH.
Qed.

Section SetOrder.
Variable lower : pystr → pystr.
Variables set_union_list1 set_union_list2
  : list pystr → list pystr → list pystr.

Hypothesis set_union_list1_spec :
  ∀ a b t, t ∈ set_union_list1 a b ↔ t ∈ a ∨ t ∈ b.
Hypothesis set_union_list2_spec :
  ∀ a b t, t ∈ set_union_list2 a b ↔ t ∈ a ∨ t ∈ b.

Lemma merge_step_agree data tm md1 md2 key tm' md1' :
  dicts_agree md1 md2 →
  merge_step lower set_union_list1 data (tm, md1) key = Ok (tm', md1') →
  ∃ md2',
    merge_step lower set_union_list2 data (tm, md2) key = Ok (tm', md2') ∧
    dicts_agree md1' md2'.
Proof.
  intros Hagree. unfold merge_step, dict_item.
  destruct (dict_get data key) as [value|]; simpl; [| done].
  destruct (is_excluded lower key); [intros [= <- <-]; by exists md2 |].
  destruct (tm !! base_name key) as [ek|].
  - destruct (dict_get md1 ek) as [ed1|] eqn:Hed1; simpl; [| done].
    destruct (dicts_agree_get _ _ _ _ Hagree Hed1) as (ed2 & -> & [Hsame Htags]).
    simpl. intros [= <- <-]. eexists. split; [done |].
    apply dicts_agree_set; [done |]. split; [done |].
    intros t. change (get_tags (set_tags ?r ?l)) with l.
    rewrite set_union_list1_spec, set_union_list2_spec, Htags. done.
  - intros [= <- <-]. eexists. split; [done |].
    apply dicts_agree_set; [done | apply same_up_to_tag_order_refl].
Qed.

Lemma merge_loop_agree data keys tm md1 md2 tm' md1' :
  dicts_agree md1 md2 →
  merge_loop lower set_union_list1 data keys (tm, md1) = Ok (tm', md1') →
  ∃ md2',
    merge_loop lower set_union_list2 data keys (tm, md2) = Ok (tm', md2') ∧
    dicts_agree md1' md2'.
Proof.
  revert tm md1 md2. induction keys as [|key keys IH]; intros tm md1 md2 Hagree.
  - intros [= <- <-]. by exists md2.
  - rewrite !merge_loop_cons.
    destruct (merge_step lower set_union_list1 data (tm, md1) key)
      as [[tm1 md1a]|] eqn:Hstep; [| done].
    destruct (merge_step_agree _ _ _ _ _ _ _ Hagree Hstep)
      as (md2a & -> & Hagree').
    rewrite !result_bind_Ok. by apply IH.
Qed.

Lemma merge_stage_agree data merged1 :
  merge_stage lower set_union_list1 data = Ok merged1 →
  ∃ merged2,
    merge_stage lower set_union_list2 data = Ok merged2 ∧
    dicts_agree merged1 merged2.
Proof.
  unfold merge_stage.
  destruct (merge_loop lower set_union_list1 data (sorted_keys data) (∅, []))
    as [[tm md1]|] eqn:Hloop; [| done].
  rewrite result_bind_Ok. intros [= <-].
  destruct (merge_loop_agree data (sorted_keys data) ∅ [] [] tm md1)
    as (md2 & -> & Hagree); [constructor | done |].
  by exists md2.
Qed.
End SetOrder.

(** The order in which the interpreter lists a set (it changes from run to
    run with the hash seed) decides nothing but the order of the tags of the
    merged records: two runs on one input return, or raise, together, and
    return the same keys in the same order with records that differ at most
    in the order of their tags. *)
Theorem set_order_decides_only_the_order_of_tags
    (lower : pystr → pystr)
    (set_union_list1 set_union_list2 : list pystr → list pystr → list pystr)
    (data final_data1 : dict record) :
  (∀ a b t, t ∈ set_union_list1 a b ↔ t ∈ a ∨ t ∈ b) →
  (∀ a b t, t ∈ set_union_list2 a b ↔ t ∈ a ∨ t ∈ b) →
  strict_filter_json lower set_union_list1 data = Ok final_data1 →
  ∃ final_data2,
    strict_filter_json lower set_union_list2 data = Ok final_data2 ∧
    dict_keys final_data1 = dict_keys final_data2 ∧
    dicts_agree final_data1 final_data2.
Proof.
  intros H1 H2. unfold strict_filter_json.
  destruct (merge_stage lower set_union_list1 data) as [md1|] eqn:Hm1; [| done].
  destruct (merge_stage_agree lower _ _ H1 H2 data md1 Hm1)
    as (md2 & -> & Hagree).
  rewrite !result_bind_Ok. intros Hf.
  destruct (filter_loop_agree md1 md2 [] [] final_data1 Hagree) as (F2 & HF2 & Hag);
    [constructor | done |].
  exists F2. split_and!; [done | by apply dicts_agree_keys | done].
Qed.

(** * The naming of the voice prompts *)

(** ** The name of the [.wav] file *)

Lemma greedy_text_cons c s :
  greedy_text (c :: s) =
  match (if (c =? NEWLINE)%N then None else greedy_text s) with
  | Some text => Some (c :: text)
  | None => if wav_at_end (c :: s) then Some [] else None
  end.
Proof. reflexivity. Qed.

Lemma lazy_emotion_cons c s :
  lazy_emotion (c :: s) =
  match (if (c =? RIGHT_BRACKET)%N then greedy_text s else None) with
  | Some text => Some ([], text)
  | None =>
      if (c =? NEWLINE)%N then None
      else match lazy_emotion s with
           | Some (emotion, text) => Some (c :: emotion, text)
           | None => None
           end
  end.
Proof. reflexivity. Qed.

Lemma at_end_spec s : at_end s = true ↔ s = [] ∨ s = [NEWLINE].
Proof.
  destruct s as [|c rest]; simpl; [naive_solver |].
  rewrite andb_true_iff, N.eqb_eq, bool_decide_eq_true. naive_solver.
Qed.

Lemma wav_at_end_spec s :
  wav_at_end s = true ↔ ∃ tail, s = DOT_WAV ++ tail ∧ (tail = [] ∨ tail = [NEWLINE]).
Proof.
  destruct s as [|c1 [|c2 [|c3 [|c4 rest]]]]; simpl;
    try (split; [done | by intros (tail & [=] & _)]).
  rewrite andb_true_iff, bool_decide_eq_true, at_end_spec. split.
  - intros [[= -> -> -> ->] Ht]. by exists rest.
  - intros (tail & [= -> -> -> -> ->] & Ht). done.
Qed.

(** The greedy group stops where the last [.wav] begins. *)
Lemma greedy_text_complete text tail :
  NEWLINE ∉ text → tail = [] ∨ tail = [NEWLINE] →
  greedy_text (text ++ DOT_WAV ++ tail) = Some text.
Proof.
  intros Hnl Htail. induction text as [|c text IH].
  - by destruct Htail as [-> | ->].
  - apply not_elem_of_cons in Hnl as [Hc Hnl].
    rewrite <- app_comm_cons, greedy_text_cons.
    destruct (N.eqb_spec c NEWLINE) as [->|_]; [done |]. by rewrite IH.
Qed.

Lemma greedy_text_sound s text :
  greedy_text s = Some text →
  (NEWLINE ∉ text) ∧
  ∃ tail, s = text ++ DOT_WAV ++ tail ∧ (tail = [] ∨ tail = [NEWLINE]).
Proof.
  revert text. induction s as [|c s IH]; intros text; [done |].
  rewrite greedy_text_cons.
  destruct (N.eqb_spec c NEWLINE) as [->|Hc].
  - destruct (wav_at_end (NEWLINE :: s)) eqn:Hw; [| done].
    intros [= <-]. split; [apply not_elem_of_nil |].
    by apply wav_at_end_spec in Hw.
  - destruct (greedy_text s) as [g|] eqn:Hg.
    + intros [= <-]. destruct (IH g eq_refl) as (Hnl & tail & -> & Ht).
      split; [by apply not_elem_of_cons |]. by exists tail.
    + destruct (wav_at_end (c :: s)) eqn:Hw; [| done].
      intros [= <-]. split; [apply not_elem_of_nil |].
      by apply wav_at_end_spec in Hw.
Qed.

Lemma lazy_emotion_sound s emotion text :
  lazy_emotion s = Some (emotion, text) →
  (RIGHT_BRACKET ∉ emotion) ∧ (NEWLINE ∉ emotion) ∧ (NEWLINE ∉ text) ∧
  ∃ tail,
    s = emotion ++ RIGHT_BRACKET :: text ++ DOT_WAV ++ tail ∧
    (tail = [] ∨ tail = [NEWLINE]).
Proof.
  revert emotion text.
  induction s as [|c s IH]; intros emotion text; [done |].
  rewrite lazy_emotion_cons.
  destruct (N.eqb_spec c RIGHT_BRACKET) as [->|Hrb].
  - destruct (greedy_text s) as [g|] eqn:Hg.
    + intros [= <- <-]. apply greedy_text_sound in Hg as (Hnl & tail & -> & Ht).
      split_and!; [apply not_elem_of_nil | apply not_elem_of_nil | done |].
      by exists tail.
    + change (RIGHT_BRACKET =? NEWLINE)%N with false.
      destruct (lazy_emotion s) as [[e t]|] eqn:Hl; [| done].
      intros _. exfalso.
      destruct (IH e t eq_refl) as (_ & Hne & Hnt & tail & Hs & Ht).
      assert (greedy_text s = Some (e ++ RIGHT_BRACKET :: t)) as Hg'.
      { rewrite Hs.
        replace (e ++ RIGHT_BRACKET :: t ++ DOT_WAV ++ tail)
          with ((e ++ RIGHT_BRACKET :: t) ++ DOT_WAV ++ tail)
          by (by rewrite <- app_assoc).
        apply greedy_text_complete; [| done].
        rewrite not_elem_of_app, not_elem_of_cons. done. }
      congruence.
  - destruct (N.eqb_spec c NEWLINE) as [->|Hnl]; [done |].
    destruct (lazy_emotion s) as [[e t]|] eqn:Hl; [| done].
    intros [= <- <-].
    destruct (IH e t eq_refl) as (Hre & Hne & Hnt & tail & -> & Ht).
    split_and!; [by apply not_elem_of_cons | by apply not_elem_of_cons | done |].
    by exists tail.
Qed.

Lemma lazy_emotion_complete emotion text tail :
  RIGHT_BRACKET ∉ emotion → NEWLINE ∉ emotion → NEWLINE ∉ text →
  tail = [] ∨ tail = [NEWLINE] →
  lazy_emotion (emotion ++ RIGHT_BRACKET :: text ++ DOT_WAV ++ tail)
  = Some (emotion, text).
Proof.
  intros Hrb Hnl Hnt Htail. induction emotion as [|c emotion IH].
  - rewrite app_nil_l, lazy_emotion_cons, N.eqb_refl.
    by rewrite greedy_text_complete.
  - apply not_elem_of_cons in Hrb as [Hc1 Hrb].
    apply not_elem_of_cons in Hnl as [Hc2 Hnl].
    rewrite <- app_comm_cons, lazy_emotion_cons.
    destruct (N.eqb_spec c RIGHT_BRACKET) as [->|_]; [done |].
    destruct (N.eqb_spec c NEWLINE) as [->|_]; [done |].
    by rewrite IH.
Qed.

(** The names that line 57 accepts and what lines 63-64 take from them: a
    name is accepted exactly when it is ['【'], an emotion, ['】'], a text
    and [.wav] (lower case), with no newline but possibly one at the very
    end; the emotion is what stands before the first ['】'], so the text may
    itself contain ['】'] or [.wav]. *)
Theorem wav_name_is_parsed_at_the_first_bracket
    (file emotion text : pystr) :
  match_wav_name file = Some (emotion, text) ↔
  (RIGHT_BRACKET ∉ emotion) ∧ (NEWLINE ∉ emotion) ∧ (NEWLINE ∉ text) ∧
  ∃ tail,
    file = LEFT_BRACKET :: emotion ++ RIGHT_BRACKET :: text ++ DOT_WAV ++ tail ∧
    (tail = [] ∨ tail = [NEWLINE]).
Proof.
  split.
  - destruct file as [|c s]; [done |]. simpl.
    destruct (N.eqb_spec c LEFT_BRACKET) as [->|_]; [| done].
    intros (? & ? & ? & tail & -> & ?)%lazy_emotion_sound.
    split_and!; [done | done | done |]. by exists tail.
  - intros (Hrb & Hnl & Hnt & tail & -> & Ht). simpl.
    change (LEFT_BRACKET =? LEFT_BRACKET)%N with true.
    by apply lazy_emotion_complete.
Qed.

(** ** The name of the [.pt] file *)

Lemma split_cons_sep a b sep :
  sep ∉ a → PyStr.split (a ++ sep :: b) sep = a :: PyStr.split b sep.
Proof.
  induction a as [|c a IH]; intros Hn; simpl.
  - by rewrite N.eqb_refl.
  - apply not_elem_of_cons in Hn as [Hc Ha].
    destruct (N.eqb_spec c sep) as [->|_]; [done |]. by rewrite IH.
Qed.

Lemma split_segments_no_sep s sep seg :
  seg ∈ PyStr.split s sep → sep ∉ seg.
Proof.
  revert seg. induction s as [|c s IH]; intros seg; simpl.
  - intros ->%list_elem_of_singleton. apply not_elem_of_nil.
  - destruct (N.eqb_spec c sep) as [->|Hc].
    + intros [->|Hin]%elem_of_cons; [apply not_elem_of_nil | by apply IH].
    + pose proof (PyStrFacts.split_nonempty s sep) as Hne.
      destruct (PyStr.split s sep) as [|seg0 segs]; [done |].
      intros [->|Hin]%elem_of_cons.
      * apply not_elem_of_cons. split; [done |]. apply IH, list_elem_of_here.
      * by apply IH, list_elem_of_further.
Qed.

Lemma nth_split_no_sep s sep i : sep ∉ nth i (PyStr.split s sep) [].
Proof.
  destruct (nth_in_or_default i (PyStr.split s sep) []) as [Hin| ->].
  - by apply (split_segments_no_sep s), list_elem_of_In.
  - apply not_elem_of_nil.
Qed.

Lemma replace_char_no_old s old new :
  old ∉ new → old ∉ PyStr.replace_char s old new.
Proof.
  intros Hnew. induction s as [|c s IH]; simpl; [apply not_elem_of_nil |].
  rewrite not_elem_of_app. split; [| done].
  destruct (N.eqb_spec c old) as [->|Hc]; [done |].
  by intros ->%list_elem_of_singleton.
Qed.

Lemma full_name_no_hyphen folder_name : HYPHEN ∉ full_name folder_name.
Proof.
  unfold full_name. cbv zeta. case_match.
  - rewrite !not_elem_of_app.
    split; [apply nth_split_no_sep | split; [| apply nth_split_no_sep]].
    by intros ?%list_elem_of_singleton.
  - apply replace_char_no_old. by intros ?%list_elem_of_singleton.
Qed.

Lemma emotion_en_no_hyphen emotion_zh : HYPHEN ∉ emotion_en emotion_zh.
Proof.
  unfold emotion_en.
  destruct (dict_get EMOTION_MAP emotion_zh) as [v|] eqn:Hv; simpl.
  - apply dict_get_Some_elem in Hv.
    assert (Forall (λ kv : pystr * pystr, HYPHEN ∉ kv.2) EMOTION_MAP) as Hall.
    { apply (bool_decide_unpack _). by vm_compute. }
    by apply (proj1 (Forall_forall _ _) Hall (emotion_zh, v)).
  - apply (bool_decide_unpack _). by vm_compute.
Qed.

(** The name of the [.pt] file has exactly two hyphens, whatever the folder
    and the emotion are: [full_name] and [emotion_en] contain none, so
    splitting the name at the hyphens gives back [zh], [full_name] and
    [emotion_en] followed by [.pt]. *)
Theorem new_filename_splits_back (folder_name emotion_zh : pystr) :
  (HYPHEN ∉ full_name folder_name) ∧
  (HYPHEN ∉ emotion_en emotion_zh) ∧
  PyStr.split (new_filename (full_name folder_name) (emotion_en emotion_zh))
    HYPHEN
  = [ [122; 104]%N; full_name folder_name; emotion_en emotion_zh ++ DOT_PT ].
Proof.
  pose proof (full_name_no_hyphen folder_name) as Hf.
  pose proof (emotion_en_no_hyphen emotion_zh) as He.
  split_and!; [done | done |].
  unfold new_filename.
  change (ZH_DASH ++ ?x) with ([122; 104]%N ++ HYPHEN :: x).
  rewrite split_cons_sep by (apply (bool_decide_unpack _); by vm_compute).
  change (full_name folder_name ++ [HYPHEN] ++ ?x)
    with (full_name folder_name ++ HYPHEN :: x).
  rewrite split_cons_sep by done.
  rewrite PyStrFacts.split_no_sep; [done |].
  rewrite not_elem_of_app. split; [done |]. apply (bool_decide_unpack _). by vm_compute.
Qed.

(** Only the first and the third part of a folder of the expected form are
    used: what follows a hyphen in the name of the role is dropped, so two
    folders that differ only there give the same [full_name]. *)
Theorem full_name_stops_at_the_third_part
    (series_name role_name rest : pystr) :
  HYPHEN ∉ series_name →
  HYPHEN ∉ role_name →
  full_name (series_name ++ HYPHEN :: CHINESE ++ HYPHEN :: role_name)
  = series_name ++ [UNDERSCORE] ++ role_name ∧
  full_name
    (series_name ++ HYPHEN :: CHINESE ++ HYPHEN :: role_name ++ HYPHEN :: rest)
  = series_name ++ [UNDERSCORE] ++ role_name.
Proof.
  intros Hs Hr.
  assert (HYPHEN ∉ CHINESE) as Hc by (apply (bool_decide_unpack _); by vm_compute).
  split; unfold full_name.
  - rewrite split_cons_sep, split_cons_sep, PyStrFacts.split_no_sep by done.
    done.
  - rewrite split_cons_sep, split_cons_sep, split_cons_sep by done.
    pose proof (PyStrFacts.split_nonempty rest HYPHEN).
    by destruct (PyStr.split rest HYPHEN).
Qed.

(** * Runs of the added properties on concrete inputs *)

Lemma union_other_order_spec a b t :
  t ∈ union_other_order a b ↔ t ∈ a ∨ t ∈ b.
Proof.
  unfold union_other_order.
  rewrite elem_of_reverse, elem_of_remove_dups, elem_of_app. tauto.
Qed.

Lemma output_keeps_sorted_input_order_witness :
  strict_filter_json ascii_lower union_in_order precedence_data
  = Ok precedence_output ∧
  dict_keys precedence_data = [key_B; key_A_ZH; key_A] ∧
  dict_keys precedence_output = [key_A_ZH; key_B] ∧
  dict_keys precedence_output `sublist_of`
    filter marked (dict_keys precedence_data)
    ++ filter (λ k, ¬ marked k) (dict_keys precedence_data).
Proof.
  assert (strict_filter_json ascii_lower union_in_order precedence_data
          = Ok precedence_output) as Hrun by by vm_compute.
  split_and!; [exact Hrun | reflexivity | reflexivity |].
  exact (output_keeps_sorted_input_order ascii_lower union_in_order
           precedence_data precedence_output Hrun).
Defined.

Lemma counts_only_go_down_witness :
  strict_filter_json ascii_lower union_in_order banned_variant_data
  = Ok banned_variant_output ∧
  removed_count banned_variant_data banned_variant_output = 2%Z ∧
  ∃ merged_data,
    merge_stage ascii_lower union_in_order banned_variant_data
    = Ok merged_data ∧
    length banned_variant_output ≤ length merged_data ∧
    length merged_data ≤ length banned_variant_data ∧
    (0 ≤ removed_count banned_variant_data banned_variant_output)%Z.
Proof.
  assert (strict_filter_json ascii_lower union_in_order banned_variant_data
          = Ok banned_variant_output) as Hrun by by vm_compute.
  split_and!; [exact Hrun | reflexivity |].
  exact (counts_only_go_down ascii_lower union_in_order
           banned_variant_data banned_variant_output Hrun).
Defined.

Lemma output_records_pass_every_test_witness :
  strict_filter_json ascii_lower union_in_order precedence_data
  = Ok precedence_output ∧
  dict_get precedence_output key_A_ZH
  = Some (sample [[120]%N; [121]%N] 6 [109]%N) ∧
  (¬ ∃ marker pre post,
       marker ∈ LANGUAGE_MARKERS ∧
       ascii_lower key_A_ZH = pre ++ marker ++ post) ∧
  (∃ n,
     py_len (emotions_of (sample [[120]%N; [121]%N] 6 [109]%N)) = Ok n ∧
     MIN_EMOTION_COUNT ≤ n) ∧
  (¬ ∃ tag banned pre post,
       tag ∈ get_tags (sample [[120]%N; [121]%N] 6 [109]%N) ∧
       banned ∈ BANNED_TAGS ∧ tag = pre ++ banned ++ post) ∧
  name_part key_A_ZH ∉ BANNED_NAMES.
Proof.
  assert (strict_filter_json ascii_lower union_in_order precedence_data
          = Ok precedence_output) as Hrun by by vm_compute.
  split; [exact Hrun |]. split; [reflexivity |].
  exact (output_records_pass_every_test ascii_lower union_in_order
           precedence_data precedence_output key_A_ZH
           (sample [[120]%N; [121]%N] 6 [109]%N) Hrun eq_refl).
Defined.

Lemma lone_record_passes_through_witness :
  NoDup (dict_keys precedence_data) ∧
  dict_get precedence_data key_B = Some (sample [[122]%N] 6 [98]%N) ∧
  survives ascii_lower key_B ∧
  (∀ k',
     k' ∈ dict_keys precedence_data → survives ascii_lower k' →
     base_name k' = base_name key_B → k' = key_B) ∧
  passes key_B (sample [[122]%N] 6 [98]%N) = Ok true ∧
  ∃ merged_data,
    merge_stage ascii_lower union_in_order precedence_data = Ok merged_data ∧
    dict_get merged_data key_B = Some (sample [[122]%N] 6 [98]%N) ∧
    ∀ final_data,
      strict_filter_json ascii_lower union_in_order precedence_data
      = Ok final_data →
      dict_get final_data key_B
      = if decide (passes key_B (sample [[122]%N] 6 [98]%N) = Ok true)
        then Some (sample [[122]%N] 6 [98]%N) else None.
Proof.
  assert (NoDup (dict_keys precedence_data)) as Hnd.
  { apply (bool_decide_unpack _). by vm_compute. }
  assert (∀ k',
            k' ∈ dict_keys precedence_data → survives ascii_lower k' →
            base_name k' = base_name key_B → k' = key_B) as Halone.
  { intros k' Hin _ Hb.
    change (dict_keys precedence_data) with [key_B; key_A_ZH; key_A] in Hin.
    repeat (apply elem_of_cons in Hin as [->|Hin]);
      [done | by vm_compute in Hb | by vm_compute in Hb
      | by apply elem_of_nil in Hin]. }
  split_and!; [exact Hnd | reflexivity | reflexivity | exact Halone
              | reflexivity |].
  exact (lone_record_passes_through ascii_lower union_in_order
           precedence_data key_B (sample [[122]%N] 6 [98]%N)
           Hnd eq_refl eq_refl Halone).
Defined.

Lemma merged_tags_collect_all_variants_witness :
  (∀ a b t, t ∈ union_in_order a b ↔ t ∈ a ∨ t ∈ b) ∧
  merge_stage ascii_lower union_in_order union_data
  = Ok [(key_A_ZH, sample [[97]%N; [98]%N; [99]%N] 6 [109]%N)] ∧
  dict_get [(key_A_ZH, sample [[97]%N; [98]%N; [99]%N] 6 [109]%N)] key_A_ZH
  = Some (sample [[97]%N; [98]%N; [99]%N] 6 [109]%N) ∧
  ∀ t,
    t ∈ get_tags (sample [[97]%N; [98]%N; [99]%N] 6 [109]%N) ↔
    ∃ k' r',
      k' ∈ dict_keys union_data ∧ survives ascii_lower k' ∧
      base_name k' = base_name key_A_ZH ∧
      dict_get union_data k' = Some r' ∧ t ∈ get_tags r'.
Proof.
  split_and!; [exact union_in_order_spec | reflexivity | reflexivity |].
  exact (merged_tags_collect_all_variants ascii_lower union_in_order
           union_data
           [(key_A_ZH, sample [[97]%N; [98]%N; [99]%N] 6 [109]%N)]
           key_A_ZH (sample [[97]%N; [98]%N; [99]%N] 6 [109]%N)
           union_in_order_spec eq_refl eq_refl).
Defined.

Lemma banned_tag_of_a_variant_drops_the_identity_witness :
  (∀ a b t, t ∈ union_in_order a b ↔ t ∈ a ∨ t ∈ b) ∧
  dict_get banned_variant_data key_A
  = Some (sample [[26222; 36890; 20154]%N] 6 [117]%N) ∧
  survives ascii_lower key_A ∧
  is_banned_tag (get_tags (sample [[26222; 36890; 20154]%N] 6 [117]%N))
  = true ∧
  is_banned_tag (get_tags (sample [[120]%N] 6 [109]%N)) = false ∧
  strict_filter_json ascii_lower union_in_order banned_variant_data
  = Ok banned_variant_output ∧
  ∀ k, k ∈ dict_keys banned_variant_output → base_name k ≠ base_name key_A.
Proof.
  assert (strict_filter_json ascii_lower union_in_order banned_variant_data
          = Ok banned_variant_output) as Hrun by by vm_compute.
  split_and!;
    [exact union_in_order_spec | reflexivity | reflexivity | reflexivity
    | reflexivity | exact Hrun |].
  exact (banned_tag_of_a_variant_drops_the_identity ascii_lower union_in_order
           banned_variant_data banned_variant_output key_A
           (sample [[26222; 36890; 20154]%N] 6 [117]%N)
           union_in_order_spec eq_refl eq_refl eq_refl Hrun).
Defined.

Lemma set_order_decides_only_the_order_of_tags_witness :
  (∀ a b t, t ∈ union_in_order a b ↔ t ∈ a ∨ t ∈ b) ∧
  (∀ a b t, t ∈ union_other_order a b ↔ t ∈ a ∨ t ∈ b) ∧
  strict_filter_json ascii_lower union_in_order union_data
  = Ok [(key_A_ZH, sample [[97]%N; [98]%N; [99]%N] 6 [109]%N)] ∧
  strict_filter_json ascii_lower union_other_order union_data
  = Ok [(key_A_ZH, sample [[98]%N; [97]%N; [99]%N] 6 [109]%N)] ∧
  ∃ final_data2,
    strict_filter_json ascii_lower union_other_order union_data
    = Ok final_data2 ∧
    dict_keys [(key_A_ZH, sample [[97]%N; [98]%N; [99]%N] 6 [109]%N)]
    = dict_keys final_data2 ∧
    dicts_agree [(key_A_ZH, sample [[97]%N; [98]%N; [99]%N] 6 [109]%N)]
      final_data2.
Proof.
  split_and!;
    [exact union_in_order_spec | exact union_other_order_spec
    | by vm_compute | by vm_compute |].
  apply (set_order_decides_only_the_order_of_tags ascii_lower
           union_in_order union_other_order union_data
           [(key_A_ZH, sample [[97]%N; [98]%N; [99]%N] 6 [109]%N)]
           union_in_order_spec union_other_order_spec).
  by vm_compute.
Defined.

(** ["S-中文-R"] and ["S-中文-R-x"] both give ["S_R"]. *)
Lemma full_name_stops_at_the_third_part_witness :
  (HYPHEN ∉ [83]%N) ∧
  (HYPHEN ∉ [82]%N) ∧
  full_name ([83]%N ++ HYPHEN :: CHINESE ++ HYPHEN :: [82]%N)
  = [83]%N ++ [UNDERSCORE] ++ [82]%N ∧
  full_name
    ([83]%N ++ HYPHEN :: CHINESE ++ HYPHEN :: [82]%N ++ HYPHEN :: [120]%N)
  = [83]%N ++ [UNDERSCORE] ++ [82]%N.
Proof.
  assert (HYPHEN ∉ [83]%N) as Hs.
  { apply (bool_decide_unpack _). by vm_compute. }
  assert (HYPHEN ∉ [82]%N) as Hr.
  { apply (bool_decide_unpack _). by vm_compute. }
  split; [exact Hs |]. split; [exact Hr |].
  exact (full_name_stops_at_the_third_part [83]%N [82]%N [120]%N Hs Hr).
Defined.
